(** * A naive Bayes ham/spam detector: preprocessing.py and detector.py

    Shallow embedding of the counting, estimation and classification code.

    Conventions.
    - Python [int] values are [Z]; values that have met the smoothing
      parameter [alpha] are rationals [Q], compared with [==] (exact
      arithmetic, no rounding).
    - A raising call returns [Raise e]; [/] raises [ZeroDivisionError] on a
      zero divisor.
    - [dict] is [gmap string _], [set] is [gset string], [Counter] is
      [gmap string Z].  A [for] loop over a set or over [dict.items()] runs
      over [elements] / [map_to_list].
    - Text is [string] over [ascii]; [isalpha], [isspace] and [lower] are
      Python's on code points below 128.
    - [estimate_probabilities] and [classify_message] are defined in the
      body of the class (detector.py, lines 70 and 102): they are functions
      reached as attributes of the class.  A bare name in the body of a
      method is looked up in the module namespace, where they are not
      bound, so [fit], [predict_proba] and [predict] raise [NameError] at
      the calls they write with the bare names.
    - [fit] assigns to [self] before it raises: it returns the detector as
      the call leaves it, and the outcome of the call. *)

From Stdlib Require Import Ascii String QArith Qfield Lqa.
From stdpp Require Import gmap strings list fin_maps.

Local Open Scope string_scope.
Local Open Scope list_scope.

(** ** Exceptions *)

Inductive exn : Set := ZeroDivisionError | ValueError | TypeError | NameError.

Inductive result (A : Type) : Type :=
  | Ok (a : A)
  | Raise (e : exn).
Arguments Ok {A} a.
Arguments Raise {A} e.

#[global] Instance result_ret : MRet result := λ A, @Ok A.
#[global] Instance result_bind : MBind result := λ A B f r,
  match r with Ok a => f a | Raise e => Raise e end.
#[global] Instance result_fmap : FMap result := λ A B f r,
  match r with Ok a => Ok (f a) | Raise e => Raise e end.

(** ** Numbers *)

(** [a / b] on numbers. *)
Definition truediv (a b : Q) : result Q :=
  if Qeq_bool b 0 then Raise ZeroDivisionError else Ok (a / b)%Q.

(** [a > b] on numbers. *)
Definition Qgt_bool (a b : Q) : bool := negb (Qle_bool a b).

(** ** preprocessing.py *)

Module pp.

Definition tab : ascii := ascii_of_nat 9.

(** [c.isalpha()] for a character below 128: an ASCII letter. *)
Definition isalpha (c : ascii) : bool :=
  let n := nat_of_ascii c in
  ((65 <=? n)%nat && (n <=? 90)%nat) || ((97 <=? n)%nat && (n <=? 122)%nat).

(** [c.isspace()] for a character below 128: the whitespace that
    [str.split()] and [str.strip()] cut at. *)
Definition isspace (c : ascii) : bool :=
  let n := nat_of_ascii c in
  ((9 <=? n)%nat && (n <=? 13)%nat) || ((28 <=? n)%nat && (n <=? 32)%nat).

(** [c.lower()] for a character below 128. *)
Definition lower_char (c : ascii) : ascii :=
  let n := nat_of_ascii c in
  if ((65 <=? n)%nat && (n <=? 90)%nat) then ascii_of_nat (n + 32) else c.

(** [s.lower()] *)
Fixpoint lower (s : string) : string :=
  match s with
  | EmptyString => EmptyString
  | String c r => String (lower_char c) (lower r)
  end.

(** [s.index(c)]: position of the first [c], [ValueError] without one. *)
Fixpoint index (c : ascii) (s : string) : result nat :=
  match s with
  | EmptyString => Raise ValueError
  | String d r => if Ascii.eqb d c then Ok 0%nat else S <$> index c r
  end.

(** [s[:n]] *)
Fixpoint slice_to (n : nat) (s : string) : string :=
  match n, s with
  | S k, String c r => String c (slice_to k r)
  | _, _ => EmptyString
  end.

(** [s[n:]] *)
Fixpoint slice_from (n : nat) (s : string) : string :=
  match n, s with
  | S k, String _ r => slice_from k r
  | _, _ => s
  end.

(** [s.replace(old, new)] for a one-character [old]. *)
Fixpoint replace (old : ascii) (new : string) (s : string) : string :=
  match s with
  | EmptyString => EmptyString
  | String c r =>
      if Ascii.eqb c old then new +:+ replace old new r
      else String c (replace old new r)
  end.

(** [s.split()]: the maximal runs of non-whitespace characters, in order.
    [cur] is the run being read. *)
Fixpoint split_from (cur : string) (s : string) : list string :=
  match s with
  | EmptyString => if String.eqb cur "" then [] else [cur]
  | String c r =>
      if isspace c
      then (if String.eqb cur "" then [] else [cur]) ++ split_from "" r
      else split_from (cur +:+ String c "") r
  end.

Definition split (s : string) : list string := split_from "" s.

Definition split_line (line : string) : result (string * string) :=
  tab_index ← index tab line;
  let ann := slice_to tab_index line in
  let msg := slice_from (tab_index + 1) line in
  Ok (ann, replace tab "" msg).

Definition split_lines (lines : list string) : result (list (string * string)) :=
  mapM split_line lines.

Definition count_ham_and_spam (ann_msg_list : list (string * string)) : Z * Z :=
  (Z.of_nat (length (omap (λ '(a, _), if String.eqb a "ham" then Some a else None) ann_msg_list)),
   Z.of_nat (length (omap (λ '(a, _), if String.eqb a "spam" then Some a else None) ann_msg_list))).

Fixpoint clean_msg (msg : string) : string :=
  match msg with
  | EmptyString => EmptyString
  | String c r => String (if isalpha c then c else " "%char) (clean_msg r)
  end.

(** The list that [split_words] turns into a set. *)
Definition lowered_words (msg : string) : list string := lower <$> split msg.

Definition split_words (msg : string) : gset string :=
  list_to_set (lowered_words msg).

(** [Counter(words)] for a set [words]: every element once. *)
Definition Counter (words : gset string) : gmap string Z :=
  gset_to_gmap 1%Z words.

(** [Counter._keep_positive] *)
Definition keep_positive (c : gmap string Z) : gmap string Z :=
  filter (λ kv, (0 < kv.2)%Z) c.

(** [self += other] on counters: counts are added, then entries that are
    not positive are dropped. *)
Definition Counter_iadd (self other : gmap string Z) : gmap string Z :=
  keep_positive (union_with (λ a b, Some (a + b)%Z) self other).

Definition count_words (msg_list : list string) : gmap string Z :=
  foldl (λ word_dict msg,
           let words := split_words (clean_msg msg) in
           Counter_iadd word_dict (Counter words))
        ∅ msg_list.

Definition count_words_in_ham_and_spam (ann_msg_list : list (string * string))
  : gmap string (Z * Z) :=
  let ham_messages :=
    omap (λ '(a, m), if String.eqb a "ham" then Some m else None) ann_msg_list in
  let ham_word_count := count_words ham_messages in
  let spam_messages :=
    omap (λ '(a, m), if String.eqb a "spam" then Some m else None) ann_msg_list in
  let spam_word_count := count_words spam_messages in
  let all_words : gset string := dom ham_word_count ∪ dom spam_word_count in
  foldl (λ ham_spam_word_count w,
           let n_ham := default 0%Z (ham_word_count !! w) in
           let n_spam := default 0%Z (spam_word_count !! w) in
           <[w := (n_ham, n_spam)]> ham_spam_word_count)
        ∅ (elements all_words).

(** [s.lstrip()] *)
Fixpoint lstrip (s : string) : string :=
  match s with
  | EmptyString => EmptyString
  | String c r => if isspace c then lstrip r else s
  end.

(** [s.rstrip()] *)
Fixpoint rstrip (s : string) : string :=
  match s with
  | EmptyString => EmptyString
  | String c r =>
      match rstrip r with
      | EmptyString => if isspace c then EmptyString else String c EmptyString
      | r' => String c r'
      end
  end.

(** [s.strip()] *)
Definition strip (s : string) : string := rstrip (lstrip s).

(** The list that [split_file] builds from [lines], the result of
    [in_file.readlines()]. *)
Definition split_file (lines : list string) : list string :=
  omap (λ line, if (0 <? String.length (strip line))%nat then Some (strip line) else None)
       lines.

(** [random_split] over a random generator: [random g] is the draw of
    [random.random()] in state [g] and the state after it, [seed_rng s]
    the state that [random.seed(s)] sets. *)
Section rng.
Context {G : Type} (random : G → Q * G) (seed_rng : Z → G).

Fixpoint random_split_loop {A} (p : Q) (seq list1 list2 : list A) (g : G)
  : list A * list A * G :=
  match seq with
  | [] => (list1, list2, g)
  | elt :: rest =>
      let '(x, g) := random g in
      if Qgt_bool p x
      then random_split_loop p rest (list1 ++ [elt]) list2 g
      else random_split_loop p rest list1 (list2 ++ [elt]) g
  end.

Definition random_split {A} (seq : list A) (p : Q) (seed : option Z) (g : G)
  : result (list A * list A * G) :=
  if Qgt_bool 0 p || Qgt_bool p 1 then Raise ValueError
  else
    let g := match seed with Some s => seed_rng s | None => g end in
    Ok (random_split_loop p seq [] [] g).
End rng.

End pp.

(** ** utils.py *)

Module utils.

Definition misclassification_rate {A} `{EqDecision A} (ytrue ypred : list A)
  : result Q :=
  if negb (length ytrue =? length ypred)%nat then Raise ValueError
  else
    truediv
      (foldl Qplus 0%Q
         (zip_with (λ t p, if decide (t ≠ p) then 1%Q else 0%Q) ytrue ypred))
      (inject_Z (Z.of_nat (length ytrue))).

End utils.

(** ** detector.py *)

(** The body of the loop over [word_counts.items()]. *)
Fixpoint estimate_words (alpha n_ham n_spam : Q)
    (items : list (string * (Z * Z))) (p_word_knowing_class : gmap string (Q * Q))
  : result (gmap string (Q * Q)) :=
  match items with
  | [] => Ok p_word_knowing_class
  | (word, (n_word_ham, n_word_spam)) :: rest =>
      p_word_ham ← truediv (inject_Z n_word_ham + alpha) n_ham;
      p_word_spam ← truediv (inject_Z n_word_spam + alpha) n_spam;
      estimate_words alpha n_ham n_spam rest
        (<[word := (p_word_ham, p_word_spam)]> p_word_knowing_class)
  end.

Definition estimate_probabilities (word_counts : gmap string (Z * Z))
    (n_classes : Z * Z) (alpha : Q) : result (gmap string (Q * Q) * (Q * Q)) :=
  let '(n_ham, n_spam) := n_classes in
  let n_tot := (inject_Z n_ham + inject_Z n_spam + 2 * alpha)%Q in
  let n_ham := if Qgt_bool alpha 0 then (inject_Z n_ham + alpha)%Q else inject_Z n_ham in
  let n_spam := if Qgt_bool alpha 0 then (inject_Z n_spam + alpha)%Q else inject_Z n_spam in
  p_ham ← truediv n_ham n_tot;
  p_spam ← truediv n_spam n_tot;
  let p_class := (p_ham, p_spam) in
  p_word_knowing_class ← estimate_words alpha n_ham n_spam (map_to_list word_counts) ∅;
  Ok (p_word_knowing_class, p_class).

(** One turn of the loop over the words of a message. *)
Definition product_step (p_word_class : gmap string (Q * Q))
    (acc : Q * Q) (word : string) : Q * Q :=
  let '(p_msg_ham, p_msg_spam) := acc in
  let '(p_word_ham, p_word_spam) := default (1, 1)%Q (p_word_class !! word) in
  (p_msg_ham * p_word_ham, p_msg_spam * p_word_spam)%Q.

(** The running products after the loop. *)
Definition message_products (p_word_class : gmap string (Q * Q))
    (msg_words : list string) : Q * Q :=
  foldl (product_step p_word_class) (1, 1)%Q msg_words.

Definition classify_message (message : string)
    (prob_info : option (gmap string (Q * Q) * (Q * Q))) : result (Q * Q) :=
  match prob_info with
  | None => Raise TypeError
  | Some (p_word_class, p_class) =>
      let msg_words := pp.split_words (pp.clean_msg message) in
      let '(p_msg_ham, p_msg_spam) := message_products p_word_class (elements msg_words) in
      let '(p_ham, p_spam) := p_class in
      let p_msg_ham_p_ham := (p_msg_ham * p_ham)%Q in
      let p_msg_spam_p_spam := (p_msg_spam * p_spam)%Q in
      let p_msg_tot := (p_msg_ham_p_ham + p_msg_spam_p_spam)%Q in
      p ← truediv p_msg_ham_p_ham p_msg_tot;
      q ← truediv p_msg_spam_p_spam p_msg_tot;
      Ok (p, q)
  end.

Record SpamDetector : Type := mkSpamDetector {
  alpha : Q;
  _word_counts : option (gmap string (Z * Z));
  n_train_messages : option Z;
  n_ham : option Z;
  n_spam : option Z;
  _prob_info : option (gmap string (Q * Q) * (Q * Q));
}.

(** [SpamDetector(alpha)] *)
Definition init (alpha : Q) : SpamDetector :=
  mkSpamDetector alpha None None None None None.

(** The names bound in the module namespace of detector.py: the import
    and the class. *)
Definition module_names : list string := ["pp"; "SpamDetector"].

(** A bare name in the body of a method, where no local has it: bound in
    the module namespace, or [NameError] (no builtin has the names the
    methods use). *)
Definition global_name (name : string) : result unit :=
  if bool_decide (name ∈ module_names) then Ok tt else Raise NameError.

(** [self.fit(messages, classes)]: the detector after the call, and
    [Ok tt] for [return self] or the exception raised. *)
Definition fit (self : SpamDetector) (messages classes : list string)
  : SpamDetector * result unit :=
  let ann_msg := zip classes messages in
  let n_train_messages := Z.of_nat (length ann_msg) in
  let word_counts := pp.count_words_in_ham_and_spam ann_msg in
  let '(n_ham, n_spam) := pp.count_ham_and_spam ann_msg in
  let self :=
    mkSpamDetector (alpha self) (Some word_counts) (Some n_train_messages)
      (Some n_ham) (Some n_spam) (_prob_info self) in
  match global_name "estimate_probabilities" with
  | Raise e => (self, Raise e)
  | Ok _ =>
      match estimate_probabilities word_counts (n_ham, n_spam) (alpha self) with
      | Raise e => (self, Raise e)
      | Ok prob_info =>
          (mkSpamDetector (alpha self) (Some word_counts) (Some n_train_messages)
             (Some n_ham) (Some n_spam) (Some prob_info),
           Ok tt)
      end
  end.

(** An argument that is a [str] or a sequence of [str], and the two shapes
    of result that [isinstance(messages, str)] selects. *)
Inductive messages_arg : Type :=
  | Single (message : string)
  | Sequence (messages : list string).

Inductive answer (A : Type) : Type :=
  | One (a : A)
  | Many (l : list A).
Arguments One {A} a.
Arguments Many {A} l.

Definition predict_proba (self : SpamDetector) (messages : messages_arg)
  : result (answer (Q * Q)) :=
  match messages with
  | Single message =>
      _ ← global_name "classify_message";
      One <$> classify_message message (_prob_info self)
  | Sequence msgs =>
      Many <$> mapM (λ msg, _ ← global_name "classify_message";
                            classify_message msg (_prob_info self)) msgs
  end.

Definition label_of (p : Q * Q) : string :=
  if Qgt_bool (fst p) (1 # 2) then "ham" else "spam".

Definition predict (self : SpamDetector) (messages : messages_arg)
  : result (answer string) :=
  probs ← predict_proba self messages;
  match probs with
  | One p => Ok (One (label_of p))
  | Many ps => Ok (Many (label_of <$> ps))
  end.

(** The body of the loop of [predict_word_proba]. *)
Fixpoint word_proba_loop (self : SpamDetector) (words : list string)
    (res : gmap string (Q * Q)) : result (gmap string (Q * Q)) :=
  match words with
  | [] => Ok res
  | w :: rest =>
      match _word_counts self with
      | None => Raise TypeError
      | Some word_counts =>
          match word_counts !! w with
          | Some (n_w_ham, n_w_spam) =>
              let n_w_ham :=
                if Qgt_bool (alpha self) 0 then (inject_Z n_w_ham + alpha self)%Q
                else inject_Z n_w_ham in
              let n_w_spam :=
                if Qgt_bool (alpha self) 0 then (inject_Z n_w_spam + alpha self)%Q
                else inject_Z n_w_spam in
              let n_w_tot := (n_w_ham + n_w_spam)%Q in
              p_ham_word ← truediv n_w_ham n_w_tot;
              p_spam_word ← truediv n_w_spam n_w_tot;
              word_proba_loop self rest (<[w := (p_ham_word, p_spam_word)]> res)
          | None => word_proba_loop self rest res
          end
      end
  end.

Definition predict_word_proba (self : SpamDetector) (message : string)
  : result (gmap string (Q * Q)) :=
  let words := pp.split_words (pp.clean_msg message) in
  word_proba_loop self (elements words) ∅.

(** * Notions used in the statements *)

(** The messages of [ann_msg_list] labelled [label], in order: the list
    comprehensions [[m for a, m in ann_msg_list if a == label]]. *)
Definition messages_of (label : string) (ann_msg_list : list (string * string))
  : list string :=
  omap (λ '(a, m), if String.eqb a label then Some m else None) ann_msg_list.

(** How many of [msgs] have [w] among their words. *)
Definition containing (w : string) (msgs : list string) : nat :=
  length (filter (λ m, w ∈ pp.split_words (pp.clean_msg m)) msgs).

(** How many times [w] occurs among the lowered words of [m]. *)
Definition occurrences (w m : string) : nat :=
  length (filter (λ v, v = w) (pp.lowered_words (pp.clean_msg m))).

(** The counts of [w] in a word-count dict, 0 for a missing word. *)
Definition ham_count (d : gmap string (Z * Z)) (w : string) : Z :=
  (default (0, 0)%Z (d !! w)).1.
Definition spam_count (d : gmap string (Z * Z)) (w : string) : Z :=
  (default (0, 0)%Z (d !! w)).2.

(** The class count that [estimate_probabilities] divides by. *)
Definition smoothed (alpha : Q) (n : Z) : Q :=
  if Qgt_bool alpha 0 then (inject_Z n + alpha)%Q else inject_Z n.

(** The pair stored for a word with counts [c]. *)
Definition word_given_class (alpha d_ham d_spam : Q) (c : Z * Z) : Q * Q :=
  ((inject_Z c.1 + alpha) / d_ham, (inject_Z c.2 + alpha) / d_spam)%Q.

(** The two joint products that [classify_message] normalises. *)
Definition joint_products (p_word_class : gmap string (Q * Q)) (p_class : Q * Q)
    (message : string) : Q * Q :=
  let products :=
    message_products p_word_class (elements (pp.split_words (pp.clean_msg message))) in
  (products.1 * p_class.1, products.2 * p_class.2)%Q.

(** No prior and no word probability of the model is negative. *)
Definition nonneg_model (p_word_class : gmap string (Q * Q)) (p_class : Q * Q) : Prop :=
  (0 <= p_class.1 ∧ 0 <= p_class.2)%Q
  ∧ ∀ w p, p_word_class !! w = Some p → (0 <= p.1 ∧ 0 <= p.2)%Q.

(** A training corpus, the detector that [fit] leaves for it with
    [alpha = 1], and the model that [estimate_probabilities] gives for its
    counts. *)
Definition example_messages : list string :=
  ["hello world"; "win money now"; "world peace"].
Definition example_classes : list string := ["ham"; "spam"; "ham"].
Definition example_detector : SpamDetector :=
  (fit (init 1) example_messages example_classes).1.
Definition example_word_probs : gmap string (Q * Q) :=
  match estimate_probabilities
          (pp.count_words_in_ham_and_spam (zip example_classes example_messages))
          (pp.count_ham_and_spam (zip example_classes example_messages)) 1 with
  | Ok (p_word_class, _) => p_word_class
  | Raise _ => ∅
  end.

(** The pair that [predict_word_proba] stores for a word with counts [c]:
    each smoothed count over the sum of the two. *)
Definition word_share (alpha : Q) (c : Z * Z) : Q * Q :=
  (smoothed alpha c.1 / (smoothed alpha c.1 + smoothed alpha c.2),
   smoothed alpha c.2 / (smoothed alpha c.1 + smoothed alpha c.2))%Q.

(** The characters of a string, and the strings that hold a tab. *)
Definition chars (s : string) : list ascii := list_ascii_of_string s.
Definition has_tab (line : string) : Prop := pp.tab ∈ chars line.

(** A text of ASCII characters only. *)
Definition ascii_text (s : string) : Prop :=
  Forall (λ c, (nat_of_ascii c <? 128)%nat = true) (chars s).

(** A lowercase ASCII letter. *)
Definition islower (c : ascii) : bool :=
  let n := nat_of_ascii c in (97 <=? n)%nat && (n <=? 122)%nat.

(** The number of positions at which two sequences differ. *)
Definition mismatches {A} `{EqDecision A} (ytrue ypred : list A) : nat :=
  length (filter (λ tp, tp.1 ≠ tp.2) (zip ytrue ypred)).

(** A small generator for examples: the draws cycle through 0, 1/4, 1/2,
    3/4. *)
Definition cycle_random (g : nat) : Q * nat := (Z.of_nat (g mod 4) # 4, S g).
Definition cycle_seed (s : Z) : nat := Z.to_nat s.

(** * Properties *)

(** ** Division and comparison *)

Section numbers.
Local Open Scope Q_scope.

Lemma truediv_ok (a b : Q) : ¬ b == 0 → truediv a b = Ok (a / b).
Proof.
  intros Hb. unfold truediv.
  destruct (Qeq_bool b 0) eqn:E; [|done].
  by apply Qeq_bool_iff in E.
Qed.

Lemma truediv_zero (a b : Q) : b == 0 → truediv a b = Raise ZeroDivisionError.
Proof.
  intros Hb. unfold truediv.
  by apply Qeq_bool_iff in Hb as ->.
Qed.

Lemma truediv_inv (a b r : Q) : truediv a b = Ok r → ¬ b == 0 ∧ r = a / b.
Proof.
  unfold truediv. destruct (Qeq_bool b 0) eqn:E; [done|].
  intros [= <-]. split; [|done]. by apply Qeq_bool_neq.
Qed.

Lemma Qgt_bool_true (a b : Q) : Qgt_bool a b = true ↔ b < a.
Proof.
  unfold Qgt_bool. rewrite negb_true_iff, <- not_true_iff_false, Qle_bool_iff.
  split; [apply Qnot_le_lt | apply Qlt_not_le].
Qed.

Lemma Qgt_bool_false (a b : Q) : Qgt_bool a b = false ↔ a <= b.
Proof.
  unfold Qgt_bool. by rewrite negb_false_iff, Qle_bool_iff.
Qed.

Lemma inject_Z_nonneg (n : Z) : (0 ≤ n)%Z → 0 <= inject_Z n.
Proof. intros Hn. change 0 with (inject_Z 0). by rewrite <- Zle_Qle. Qed.

Lemma inject_Z_pos (n : Z) : (0 < n)%Z → 0 < inject_Z n.
Proof. intros Hn. change 0 with (inject_Z 0). by rewrite <- Zlt_Qlt. Qed.
End numbers.

(** ** The estimator *)

Section estimator.
Local Open Scope Q_scope.

Lemma smoothed_pos_alpha (alpha : Q) (n : Z) :
  0 < alpha → smoothed alpha n = inject_Z n + alpha.
Proof. intros Ha. unfold smoothed. by apply Qgt_bool_true in Ha as ->. Qed.

Lemma smoothed_raw (alpha : Q) (n : Z) :
  alpha <= 0 → smoothed alpha n = inject_Z n.
Proof. intros Ha. unfold smoothed. by apply Qgt_bool_false in Ha as ->. Qed.

Lemma estimate_words_ok alpha d_ham d_spam items acc :
  ¬ d_ham == 0 → ¬ d_spam == 0 →
  estimate_words alpha d_ham d_spam items acc =
    Ok (foldl (λ m wc, <[wc.1 := word_given_class alpha d_ham d_spam wc.2]> m)
          acc items).
Proof.
  intros Hh Hs. revert acc.
  induction items as [|[word [a b]] rest IH]; intros acc; simpl; [done|].
  rewrite !truediv_ok by done. simpl. apply IH.
Qed.

Lemma estimate_words_raise alpha d_ham d_spam items acc :
  items ≠ [] → d_ham == 0 ∨ d_spam == 0 →
  estimate_words alpha d_ham d_spam items acc = Raise ZeroDivisionError.
Proof.
  destruct items as [|[word [a b]] rest]; [done|]. intros _ Hz. simpl.
  destruct (Qeq_bool d_ham 0) eqn:E.
  - apply Qeq_bool_iff in E. rewrite (truediv_zero _ d_ham) by done. reflexivity.
  - apply Qeq_bool_neq in E. destruct Hz as [Hz|Hz]; [done|].
    rewrite (truediv_ok _ d_ham) by done. simpl.
    rewrite (truediv_zero _ d_spam) by done. reflexivity.
Qed.

Lemma foldl_insert_lookup {A B} (f : A → B) (items : list (string * A))
    (acc : gmap string B) (w : string) :
  NoDup items.*1 →
  foldl (λ m kv, <[kv.1 := f kv.2]> m) acc items !! w =
    match (list_to_map items : gmap string A) !! w with
    | Some c => Some (f c)
    | None => acc !! w
    end.
Proof.
  revert acc. induction items as [|[k c] rest IH]; intros acc Hnd; [done|].
  apply NoDup_cons in Hnd as [Hk Hnd]. simpl. rewrite IH by done.
  destruct (decide (k = w)) as [->|Hne].
  - rewrite (not_elem_of_list_to_map_1 _ _ Hk). by rewrite !lookup_insert_eq.
  - rewrite (lookup_insert_ne (list_to_map rest)) by done.
    destruct (list_to_map rest !! w); [done|]. by rewrite lookup_insert_ne.
Qed.

Lemma foldl_insert_items {A B} (f : A → B) (m : gmap string A) :
  foldl (λ r kv, <[kv.1 := f kv.2]> r) ∅ (map_to_list m) = f <$> m.
Proof.
  apply map_eq. intros w.
  rewrite foldl_insert_lookup by apply NoDup_fst_map_to_list.
  rewrite list_to_map_to_list, lookup_fmap.
  by destruct (m !! w).
Qed.

(** With non-zero divisors the estimator returns, and the result is the
    word counts and the class counts divided as the code writes them. *)
Lemma estimate_probabilities_ok word_counts nh ns alpha :
  ¬ inject_Z nh + inject_Z ns + 2 * alpha == 0 →
  ¬ smoothed alpha nh == 0 → ¬ smoothed alpha ns == 0 →
  estimate_probabilities word_counts (nh, ns) alpha =
    Ok (word_given_class alpha (smoothed alpha nh) (smoothed alpha ns) <$> word_counts,
        (smoothed alpha nh / (inject_Z nh + inject_Z ns + 2 * alpha),
         smoothed alpha ns / (inject_Z nh + inject_Z ns + 2 * alpha))).
Proof.
  intros Ht Hh Hs. unfold estimate_probabilities. fold (smoothed alpha nh) (smoothed alpha ns).
  rewrite !truediv_ok by done. simpl.
  rewrite estimate_words_ok by done. simpl.
  by rewrite foldl_insert_items.
Qed.

Lemma smoothed_sum alpha nh ns :
  0 <= alpha →
  smoothed alpha nh + smoothed alpha ns == inject_Z nh + inject_Z ns + 2 * alpha.
Proof.
  intros Ha. unfold smoothed. destruct (Qgt_bool alpha 0) eqn:E; [ring|].
  apply Qgt_bool_false in E. assert (alpha == 0) as -> by by apply Qle_antisym.
  ring.
Qed.
End estimator.

Section estimator_claims.
Local Open Scope Q_scope.

(** C1: when its divisions are defined, [estimate_probabilities] returns,
    and the pair it stores for a word with counts [(a, b)] is
    [((a + alpha) / d_ham, (b + alpha) / d_spam)], where [d_ham] and
    [d_spam] are the class counts with [alpha] added when [alpha > 0] and
    the raw class counts when [alpha = 0]: the numerators of the two
    priors, not the raw counts. *)
Theorem estimate_probabilities_word_conditionals
    (word_counts : gmap string (Z * Z)) (n_ham n_spam : Z) (alpha : Q) :
  ¬ inject_Z n_ham + inject_Z n_spam + 2 * alpha == 0 →
  ¬ smoothed alpha n_ham == 0 →
  ¬ smoothed alpha n_spam == 0 →
  ∃ p_word p_class,
    estimate_probabilities word_counts (n_ham, n_spam) alpha = Ok (p_word, p_class) ∧
    p_class = (smoothed alpha n_ham / (inject_Z n_ham + inject_Z n_spam + 2 * alpha),
               smoothed alpha n_spam / (inject_Z n_ham + inject_Z n_spam + 2 * alpha)) ∧
    dom p_word = dom word_counts ∧
    (∀ w a b, word_counts !! w = Some (a, b) →
       p_word !! w = Some ((inject_Z a + alpha) / smoothed alpha n_ham,
                           (inject_Z b + alpha) / smoothed alpha n_spam)) ∧
    (0 < alpha →
       smoothed alpha n_ham = inject_Z n_ham + alpha ∧
       smoothed alpha n_spam = inject_Z n_spam + alpha) ∧
    (alpha == 0 →
       smoothed alpha n_ham = inject_Z n_ham ∧
       smoothed alpha n_spam = inject_Z n_spam).
Proof.
  intros Ht Hh Hs. eexists _, _.
  split; [by apply estimate_probabilities_ok|].
  split; [done|]. split; [apply dom_fmap_L|]. split; [|split].
  - intros w a b Hw. by rewrite lookup_fmap, Hw.
  - intros Ha. by rewrite !smoothed_pos_alpha.
  - intros Ha. rewrite !smoothed_raw; [done|by rewrite Ha..].
Qed.

Lemma estimate_probabilities_word_conditionals_witness :
  ∃ p_word p_class,
    estimate_probabilities {["free" := (1, 3)%Z]} (2, 3)%Z 1 = Ok (p_word, p_class) ∧
    p_class = (smoothed 1 2 / (inject_Z 2 + inject_Z 3 + 2 * 1),
               smoothed 1 3 / (inject_Z 2 + inject_Z 3 + 2 * 1)) ∧
    dom p_word = dom ({["free" := (1, 3)%Z]} : gmap string (Z * Z)) ∧
    (∀ w a b, ({["free" := (1, 3)%Z]} : gmap string (Z * Z)) !! w = Some (a, b) →
       p_word !! w = Some ((inject_Z a + 1) / smoothed 1 2,
                           (inject_Z b + 1) / smoothed 1 3)) ∧
    (0 < 1 → smoothed 1 2 = inject_Z 2 + 1 ∧ smoothed 1 3 = inject_Z 3 + 1) ∧
    (1 == 0 → smoothed 1 2 = inject_Z 2 ∧ smoothed 1 3 = inject_Z 3).
Proof.
  apply (estimate_probabilities_word_conditionals {["free" := (1, 3)%Z]} 2 3 1);
    vm_compute; discriminate.
Defined.

(** C4: for [alpha > 0] and class counts that are not negative,
    [estimate_probabilities] returns the priors
    [(n_ham + alpha) / (n_ham + n_spam + 2 alpha)] and
    [(n_spam + alpha) / (n_ham + n_spam + 2 alpha)], and they sum to 1. *)
Theorem estimate_probabilities_priors_sum_to_one
    (word_counts : gmap string (Z * Z)) (n_ham n_spam : Z) (alpha : Q) :
  0 < alpha → (0 ≤ n_ham)%Z → (0 ≤ n_spam)%Z →
  ∃ p_word p_ham p_spam,
    estimate_probabilities word_counts (n_ham, n_spam) alpha
      = Ok (p_word, (p_ham, p_spam)) ∧
    p_ham = (inject_Z n_ham + alpha) / (inject_Z n_ham + inject_Z n_spam + 2 * alpha) ∧
    p_spam = (inject_Z n_spam + alpha) / (inject_Z n_ham + inject_Z n_spam + 2 * alpha) ∧
    p_ham + p_spam == 1.
Proof.
  intros Ha Hh%inject_Z_nonneg Hs%inject_Z_nonneg.
  eexists _, _, _. split.
  - apply estimate_probabilities_ok; rewrite ?smoothed_pos_alpha by done; lra.
  - rewrite !smoothed_pos_alpha by done. split; [done|]. split; [done|].
    field. lra.
Qed.

Lemma estimate_probabilities_priors_sum_to_one_witness :
  ∃ p_word p_ham p_spam,
    estimate_probabilities ∅ (2, 1)%Z 1 = Ok (p_word, (p_ham, p_spam)) ∧
    p_ham = (inject_Z 2 + 1) / (inject_Z 2 + inject_Z 1 + 2 * 1) ∧
    p_spam = (inject_Z 1 + 1) / (inject_Z 2 + inject_Z 1 + 2 * 1) ∧
    p_ham + p_spam == 1.
Proof.
  apply (estimate_probabilities_priors_sum_to_one ∅ 2 1 1); [reflexivity | lia | lia].
Defined.
(** C10: with [alpha = 0], one class count zero, the other positive (so the
    precondition "one of n_ham, n_spam, alpha is positive" holds) and a
    non-empty [word_counts], [estimate_probabilities] raises
    [ZeroDivisionError]: the prior divisions succeed and the first word is
    divided by the zero class count. *)
Theorem estimate_probabilities_zero_class_raises
    (word_counts : gmap string (Z * Z)) (n : Z) (alpha : Q) :
  alpha == 0 → (0 < n)%Z → word_counts ≠ ∅ →
  estimate_probabilities word_counts (0, n)%Z alpha = Raise ZeroDivisionError ∧
  estimate_probabilities word_counts (n, 0)%Z alpha = Raise ZeroDivisionError.
Proof.
  intros Ha Hn%inject_Z_pos Hne.
  assert (Qgt_bool alpha 0 = false) as Hgt by (apply Qgt_bool_false; lra).
  assert (map_to_list word_counts ≠ []) as Hitems by by rewrite map_to_list_empty_iff.
  unfold estimate_probabilities. rewrite Hgt. split.
  - rewrite !truediv_ok by (change (inject_Z 0) with 0; lra). simpl.
    rewrite estimate_words_raise; [done..|by left].
  - rewrite !truediv_ok by (change (inject_Z 0) with 0; lra). simpl.
    rewrite estimate_words_raise; [done..|by right].
Qed.

Lemma estimate_probabilities_zero_class_raises_witness :
  estimate_probabilities {["free" := (0, 1)%Z]} (0, 1)%Z 0 = Raise ZeroDivisionError ∧
  estimate_probabilities {["free" := (0, 1)%Z]} (1, 0)%Z 0 = Raise ZeroDivisionError.
Proof.
  apply (estimate_probabilities_zero_class_raises {["free" := (0, 1)%Z]} 1 0);
    [reflexivity | lia | apply map_non_empty_singleton].
Defined.
End estimator_claims.

(** ** Counting *)

Section counting.
Implicit Types (msgs : list string) (l : list (string * string)) (w m : string).

Lemma messages_of_app label l1 l2 :
  messages_of label (l1 ++ l2) = messages_of label l1 ++ messages_of label l2.
Proof. apply omap_app. Qed.

Lemma messages_of_cons_eq label m l :
  messages_of label ((label, m) :: l) = m :: messages_of label l.
Proof. unfold messages_of. simpl. by rewrite String.eqb_refl. Qed.

Lemma messages_of_cons_ne label a m l :
  a ≠ label → messages_of label ((a, m) :: l) = messages_of label l.
Proof.
  intros Hne. unfold messages_of. simpl.
  destruct (String.eqb_spec a label); [done|]. reflexivity.
Qed.

Lemma length_labels_of label l :
  length (omap (λ '(a, _), if String.eqb a label then Some a else None) l) =
    length (messages_of label l).
Proof.
  unfold messages_of. induction l as [|[a m] l IH]; [done|]. simpl.
  destruct (String.eqb a label); simpl; [f_equal|]; exact IH.
Qed.

Lemma count_ham_and_spam_lengths l :
  pp.count_ham_and_spam l =
    (Z.of_nat (length (messages_of "ham" l)), Z.of_nat (length (messages_of "spam" l))).
Proof. unfold pp.count_ham_and_spam. by rewrite !length_labels_of. Qed.

Lemma containing_app w msgs1 msgs2 :
  containing w (msgs1 ++ msgs2) = (containing w msgs1 + containing w msgs2)%nat.
Proof. unfold containing. by rewrite filter_app, length_app. Qed.

Lemma containing_cons w m msgs :
  containing w (m :: msgs) =
    ((if decide (w ∈ pp.split_words (pp.clean_msg m)) then 1 else 0)
     + containing w msgs)%nat.
Proof.
  unfold containing. rewrite filter_cons. by case_decide.
Qed.

Lemma lookup_Counter_iadd (d : gmap string Z) (s : gset string) w :
  (∀ z, d !! w = Some z → (0 < z)%Z) →
  pp.Counter_iadd d (pp.Counter s) !! w =
    if decide (w ∈ s) then Some (default 0 (d !! w) + 1)%Z else d !! w.
Proof.
  intros Hpos. unfold pp.Counter_iadd, pp.keep_positive, pp.Counter.
  rewrite map_lookup_filter, lookup_union_with, lookup_gset_to_gmap.
  destruct (d !! w) as [z|] eqn:E; case_decide; simplify_option_eq;
    try done; try (specialize (Hpos _ eq_refl); lia).
Qed.

(** A word's count is the number of messages it is in; words in no
    message are not keys. *)
Lemma count_words_lookup msgs w :
  pp.count_words msgs !! w =
    if decide (containing w msgs = 0%nat) then None
    else Some (Z.of_nat (containing w msgs)).
Proof.
  induction msgs as [|m msgs IH] using rev_ind; [done|].
  unfold pp.count_words. rewrite foldl_snoc. fold (pp.count_words msgs).
  rewrite lookup_Counter_iadd.
  - rewrite IH, containing_app, containing_cons.
    change (containing w []) with 0%nat.
    destruct (decide (w ∈ pp.split_words (pp.clean_msg m)));
      destruct (decide (containing w msgs = 0%nat)) as [E|E];
      simpl; case_decide; try lia; try done; f_equal; lia.
  - intros z. rewrite IH. case_decide; [done|]. intros [= <-]. lia.
Qed.

Lemma foldl_insert_keys_lookup {B} (g : string → B) (ws : list string)
    (acc : gmap string B) w :
  foldl (λ d v, <[v := g v]> d) acc ws !! w =
    if decide (w ∈ ws) then Some (g w) else acc !! w.
Proof.
  revert acc. induction ws as [|v ws IH]; intros acc; simpl.
  - destruct (decide (w ∈ [])) as [Hin|]; [by apply elem_of_nil in Hin|done].
  - rewrite IH. destruct (decide (w ∈ ws)) as [Hin|Hnin].
    + rewrite decide_True; [done|by right].
    + destruct (decide (v = w)) as [->|Hne].
      * rewrite lookup_insert_eq, decide_True; [done|by left].
      * rewrite lookup_insert_ne, decide_False; [done| |done].
        rewrite elem_of_cons. intros [->|Hin]; done.
Qed.

(** The entry of a word holds, for each class, the number of messages of
    the class that the word is in; a word in no ham and no spam message
    has no entry. *)
Lemma count_words_in_ham_and_spam_lookup l w :
  pp.count_words_in_ham_and_spam l !! w =
    if decide (containing w (messages_of "ham" l) = 0%nat
               ∧ containing w (messages_of "spam" l) = 0%nat)
    then None
    else Some (Z.of_nat (containing w (messages_of "ham" l)),
               Z.of_nat (containing w (messages_of "spam" l))).
Proof.
  unfold pp.count_words_in_ham_and_spam.
  fold (messages_of "ham" l) (messages_of "spam" l).
  rewrite foldl_insert_keys_lookup, lookup_empty.
  set (nh := containing w (messages_of "ham" l)).
  set (ns := containing w (messages_of "spam" l)).
  assert (pp.count_words (messages_of "ham" l) !! w
          = if decide (nh = 0%nat) then None else Some (Z.of_nat nh)) as Hh
    by apply count_words_lookup.
  assert (pp.count_words (messages_of "spam" l) !! w
          = if decide (ns = 0%nat) then None else Some (Z.of_nat ns)) as Hs
    by apply count_words_lookup.
  destruct (decide (w ∈ elements _)) as [Hin|Hnin].
  - rewrite elem_of_elements, elem_of_union, !elem_of_dom, Hh, Hs in Hin.
    rewrite Hh, Hs.
    destruct (decide (nh = 0%nat)) as [Eh|Eh], (decide (ns = 0%nat)) as [Es|Es];
      simpl; try (rewrite decide_False by lia); try (repeat f_equal; lia).
    destruct Hin as [[? [=]]|[? [=]]].
  - rewrite elem_of_elements, elem_of_union, !elem_of_dom, Hh, Hs in Hnin.
    destruct (decide (nh = 0%nat)) as [Eh|Eh], (decide (ns = 0%nat)) as [Es|Es];
      try (exfalso; apply Hnin; eauto; fail).
    by rewrite decide_True.
Qed.

Lemma occurrences_pos w m :
  (1 ≤ occurrences w m)%nat ↔ w ∈ pp.split_words (pp.clean_msg m).
Proof.
  unfold occurrences, pp.split_words. rewrite elem_of_list_to_set.
  induction (pp.lowered_words (pp.clean_msg m)) as [|v vs IH].
  - simpl. rewrite elem_of_nil. lia.
  - rewrite filter_cons, elem_of_cons. case_decide as Hv; simpl.
    + split; [by left | lia].
    + rewrite IH. split; [by right | by intros [->|Hin]].
Qed.

(** C6: adding one message of a class anywhere in the corpus adds, to the
    count of a word for that class, 1 when the word occurs in the message
    (once or many times) and 0 when it does not, and leaves the count for
    the other class as it was. *)
Theorem word_counted_once_per_message l1 l2 m w :
  let before := pp.count_words_in_ham_and_spam (l1 ++ l2) in
  let after_ham := pp.count_words_in_ham_and_spam (l1 ++ ("ham", m) :: l2) in
  let after_spam := pp.count_words_in_ham_and_spam (l1 ++ ("spam", m) :: l2) in
  let once := if decide (1 ≤ occurrences w m)%nat then 1%Z else 0%Z in
  (ham_count after_ham w = (ham_count before w + once)%Z
   ∧ spam_count after_ham w = spam_count before w)
  ∧ (spam_count after_spam w = (spam_count before w + once)%Z
     ∧ ham_count after_spam w = ham_count before w).
Proof.
  intros before after_ham after_spam once.
  unfold ham_count, spam_count, before, after_ham, after_spam, once.
  rewrite !count_words_in_ham_and_spam_lookup, !messages_of_app.
  rewrite !messages_of_cons_eq, !messages_of_cons_ne by done.
  rewrite !containing_app, !containing_cons.
  pose proof (occurrences_pos w m) as Hocc.
  destruct (decide (1 ≤ occurrences w m)%nat) as [Ho|Ho];
    destruct (decide (w ∈ pp.split_words (pp.clean_msg m))) as [Hw|Hw];
    try (exfalso; tauto);
    repeat case_decide; simpl; lia.
Qed.

Example repeated_word_example :
  occurrences "free" "Free free, FREE!" = 3%nat ∧
  pp.count_words_in_ham_and_spam [("spam", "Free free, FREE!")] !! "free"
    = Some (0, 1)%Z.
Proof. by vm_compute. Qed.

(** C7: an entry whose label is neither "ham" nor "spam" changes neither
    the class counts nor the word counts: both functions return what they
    return on the list without the entry.  Both are total: no input makes
    them raise. *)
Theorem other_labels_are_ignored l1 l2 a m :
  a ≠ "ham" → a ≠ "spam" →
  pp.count_ham_and_spam (l1 ++ (a, m) :: l2) = pp.count_ham_and_spam (l1 ++ l2)
  ∧ pp.count_words_in_ham_and_spam (l1 ++ (a, m) :: l2)
    = pp.count_words_in_ham_and_spam (l1 ++ l2).
Proof.
  intros Hham Hspam. split.
  - rewrite !count_ham_and_spam_lengths, !messages_of_app.
    by rewrite !messages_of_cons_ne.
  - unfold pp.count_words_in_ham_and_spam.
    change (omap (λ '(a, m), if String.eqb a "ham" then Some m else None))
      with (messages_of "ham").
    change (omap (λ '(a, m), if String.eqb a "spam" then Some m else None))
      with (messages_of "spam").
    rewrite !messages_of_app. by rewrite !messages_of_cons_ne.
Qed.

Lemma other_labels_are_ignored_witness :
  pp.count_ham_and_spam ([("ham", "hello world")] ++ ("unknown", "win money") :: [("spam", "win now")])
    = pp.count_ham_and_spam ([("ham", "hello world")] ++ [("spam", "win now")])
  ∧ pp.count_words_in_ham_and_spam
      ([("ham", "hello world")] ++ ("unknown", "win money") :: [("spam", "win now")])
    = pp.count_words_in_ham_and_spam ([("ham", "hello world")] ++ [("spam", "win now")]).
Proof.
  apply (other_labels_are_ignored [("ham", "hello world")] [("spam", "win now")]
           "unknown" "win money"); discriminate.
Defined.
End counting.

(** ** Splitting a line *)

Section lines.
(** The line is cut at its first tab, and every later tab is deleted. *)
Lemma split_line_at_first_tab (ann body : string) :
  pp.index pp.tab ann = Raise ValueError →
  pp.split_line (ann +:+ String pp.tab body) = Ok (ann, pp.replace pp.tab "" body).
Proof.
  intros Hann. unfold pp.split_line.
  assert (∀ k, pp.index pp.tab (ann +:+ String pp.tab body) = Ok k →
               pp.slice_to k (ann +:+ String pp.tab body) = ann
               ∧ pp.slice_from (k + 1) (ann +:+ String pp.tab body) = body) as Hcut.
  { induction ann as [|c ann IH]; simpl in *.
    - intros k [= <-]. done.
    - destruct (Ascii.eqb c pp.tab); [done|].
      destruct (pp.index pp.tab ann) as [|e] eqn:E; [done|].
      assert (e = ValueError) as -> by (by injection Hann).
      destruct (pp.index pp.tab (ann +:+ String pp.tab body)) as [j|] eqn:Ej;
        intros k [= <-].
      destruct (IH eq_refl j eq_refl) as [H1 H2]. simpl. by rewrite H1, H2. }
  assert (∃ k, pp.index pp.tab (ann +:+ String pp.tab body) = Ok k) as [k Hk].
  { clear Hcut. induction ann as [|c ann IH]; simpl in *; [by eexists|].
    destruct (Ascii.eqb c pp.tab); [by eexists|].
    destruct (pp.index pp.tab ann) as [|e] eqn:E; [done|].
    assert (e = ValueError) as -> by (by injection Hann).
    destruct (IH eq_refl) as [j ->]. by eexists. }
  rewrite Hk. simpl. by destruct (Hcut k Hk) as [-> ->].
Qed.

(** C9: on the line "ham<TAB>a<TAB>b" the label is "ham" and the body
    is "ab": the embedded tab is deleted, not replaced by a space. *)
Theorem split_line_deletes_embedded_tabs :
  pp.split_line ("ham" +:+ String pp.tab ("a" +:+ String pp.tab "b")) = Ok ("ham", "ab")
  ∧ pp.split_line ("ham" +:+ String pp.tab ("a" +:+ String pp.tab "b"))
    ≠ Ok ("ham", "a b").
Proof. split; [reflexivity | discriminate]. Qed.
End lines.

(** ** The classifier *)

Section classifier.
Local Open Scope Q_scope.
Implicit Types (p_word_class : gmap string (Q * Q)) (p_class acc : Q * Q).

Lemma classify_message_ok p_word_class p_class message :
  let j := joint_products p_word_class p_class message in
  ¬ j.1 + j.2 == 0 →
  classify_message message (Some (p_word_class, p_class))
    = Ok (j.1 / (j.1 + j.2), j.2 / (j.1 + j.2)).
Proof.
  unfold classify_message, joint_products.
  destruct (message_products _ _) as [a b], p_class as [p_ham p_spam]. simpl.
  intros Ht. by rewrite !truediv_ok.
Qed.

Lemma classify_message_raise p_word_class p_class message :
  let j := joint_products p_word_class p_class message in
  j.1 + j.2 == 0 →
  classify_message message (Some (p_word_class, p_class)) = Raise ZeroDivisionError.
Proof.
  unfold classify_message, joint_products.
  destruct (message_products _ _) as [a b], p_class as [p_ham p_spam]. simpl.
  intros Ht. rewrite (truediv_zero (a * p_ham) _ Ht). reflexivity.
Qed.

Lemma classify_message_inv p_word_class p_class message p q :
  classify_message message (Some (p_word_class, p_class)) = Ok (p, q) →
  let j := joint_products p_word_class p_class message in
  ¬ j.1 + j.2 == 0 ∧ p = j.1 / (j.1 + j.2) ∧ q = j.2 / (j.1 + j.2).
Proof.
  intros Hc j. destruct (Qeq_bool (j.1 + j.2) 0) eqn:E.
  - apply Qeq_bool_iff in E.
    by rewrite (classify_message_raise _ _ _ E) in Hc.
  - apply Qeq_bool_neq in E.
    rewrite (classify_message_ok _ _ _ E) in Hc. by injection Hc as <- <-.
Qed.

Lemma products_nonneg p_word_class words acc :
  (∀ w p, p_word_class !! w = Some p → 0 <= p.1 ∧ 0 <= p.2) →
  0 <= acc.1 → 0 <= acc.2 →
  0 <= (foldl (product_step p_word_class) acc words).1
  ∧ 0 <= (foldl (product_step p_word_class) acc words).2.
Proof.
  intros Hpw. revert acc.
  induction words as [|w words IH]; intros [a b] Ha Hb; simpl in *; [done|].
  apply IH; destruct (p_word_class !! w) as [[x y]|] eqn:E; simpl.
  - apply Qmult_le_0_compat; [done|]. apply (Hpw _ _ E).
  - apply Qmult_le_0_compat; [done|]. lra.
  - apply Qmult_le_0_compat; [done|]. apply (Hpw _ _ E).
  - apply Qmult_le_0_compat; [done|]. lra.
Qed.

Lemma joint_products_nonneg p_word_class p_class message :
  nonneg_model p_word_class p_class →
  0 <= (joint_products p_word_class p_class message).1
  ∧ 0 <= (joint_products p_word_class p_class message).2.
Proof.
  intros [[Hh Hs] Hpw]. unfold joint_products, message_products. simpl.
  destruct (products_nonneg p_word_class
              (elements (pp.split_words (pp.clean_msg message))) (1, 1) Hpw)
    as [H1 H2]; simpl; [lra..|].
  split; by apply Qmult_le_0_compat.
Qed.

(** C2: for a model without negative probabilities and a message whose
    two joint products are not both zero, [classify_message] returns and
    the two posteriors sum to 1. *)
Theorem classify_message_sums_to_one p_word_class p_class message :
  nonneg_model p_word_class p_class →
  ¬ ((joint_products p_word_class p_class message).1 == 0
     ∧ (joint_products p_word_class p_class message).2 == 0) →
  ∃ p_ham p_spam,
    classify_message message (Some (p_word_class, p_class)) = Ok (p_ham, p_spam)
    ∧ p_ham + p_spam == 1.
Proof.
  intros Hm Hnz.
  destruct (joint_products_nonneg _ _ message Hm) as [H1 H2].
  assert (¬ (joint_products p_word_class p_class message).1
            + (joint_products p_word_class p_class message).2 == 0) as Ht.
  { intros E. apply Hnz. split; lra. }
  eexists _, _. split; [by apply classify_message_ok|].
  by field.
Qed.

Lemma classify_message_sums_to_one_witness :
  ∃ p_ham p_spam,
    classify_message "Hello hello!" (Some ({["hello" := (2 # 3, 1 # 2)]}, (3 # 5, 2 # 5)))
      = Ok (p_ham, p_spam)
    ∧ p_ham + p_spam == 1.
Proof.
  apply (classify_message_sums_to_one {["hello" := (2 # 3, 1 # 2)]} (3 # 5, 2 # 5)
           "Hello hello!").
  - split; [by vm_compute|].
    intros w p [_ <-]%lookup_singleton_Some. by vm_compute.
  - vm_compute. intros [H _]. discriminate H.
Defined.

Lemma products_unseen p_word_class words acc :
  (∀ w, w ∈ words → p_word_class !! w = None) →
  (foldl (product_step p_word_class) acc words).1 == acc.1
  ∧ (foldl (product_step p_word_class) acc words).2 == acc.2.
Proof.
  revert acc. induction words as [|w words IH]; intros [a b] Hun; simpl; [done|].
  rewrite (Hun w) by by left. simpl.
  destruct (IH (a * 1, b * 1)) as [H1 H2].
  { intros v Hv. apply Hun. by right. }
  rewrite H1, H2. simpl. split; ring.
Qed.

Lemma estimate_probabilities_inv word_counts nh ns alpha p_word_class p_ham p_spam :
  estimate_probabilities word_counts (nh, ns) alpha = Ok (p_word_class, (p_ham, p_spam)) →
  ¬ inject_Z nh + inject_Z ns + 2 * alpha == 0
  ∧ p_ham = smoothed alpha nh / (inject_Z nh + inject_Z ns + 2 * alpha)
  ∧ p_spam = smoothed alpha ns / (inject_Z nh + inject_Z ns + 2 * alpha).
Proof.
  unfold estimate_probabilities. fold (smoothed alpha nh) (smoothed alpha ns).
  destruct (truediv (smoothed alpha nh) _) as [x|] eqn:Ex; [|done].
  destruct (truediv (smoothed alpha ns) _) as [y|] eqn:Ey; [|done]. simpl.
  destruct (estimate_words _ _ _ _ _); [|done]. simpl. intros [= _ <- <-].
  apply truediv_inv in Ex as [Ht ->]. by apply truediv_inv in Ey as [_ ->].
Qed.

(** In exact arithmetic the priors of the estimator sum to 1, and the
    posterior of a message of unseen words is the prior itself. *)
Lemma classify_unseen_after_estimate word_counts nh ns alpha
    p_word_class p_ham p_spam message :
  0 <= alpha →
  estimate_probabilities word_counts (nh, ns) alpha = Ok (p_word_class, (p_ham, p_spam)) →
  (∀ w, w ∈ pp.split_words (pp.clean_msg message) → p_word_class !! w = None) →
  ∃ p q,
    classify_message message (Some (p_word_class, (p_ham, p_spam))) = Ok (p, q)
    ∧ p == p_ham ∧ q == p_spam ∧ p_ham + p_spam == 1.
Proof.
  intros Ha (Ht & -> & ->)%estimate_probabilities_inv Hun.
  pose proof (smoothed_sum alpha nh ns Ha) as Hsum.
  set (t := inject_Z nh + inject_Z ns + 2 * alpha) in *.
  destruct (products_unseen p_word_class
              (elements (pp.split_words (pp.clean_msg message))) (1, 1)) as [H1 H2].
  { intros w Hw. apply Hun. by apply elem_of_elements. }
  simpl in H1, H2.
  assert (smoothed alpha nh / t + smoothed alpha ns / t == 1) as Hone.
  { apply Qeq_trans with ((smoothed alpha nh + smoothed alpha ns) / t); [by field|].
    rewrite Hsum. by field. }
  set (j := joint_products p_word_class (smoothed alpha nh / t, smoothed alpha ns / t)
              message).
  assert (j.1 == smoothed alpha nh / t) as Hj1.
  { unfold j, joint_products, message_products. simpl. rewrite H1. ring. }
  assert (j.2 == smoothed alpha ns / t) as Hj2.
  { unfold j, joint_products, message_products. simpl. rewrite H2. ring. }
  assert (¬ j.1 + j.2 == 0) as Hnz by (rewrite Hj1, Hj2, Hone; lra).
  eexists _, _. split; [by apply classify_message_ok|]. fold j.
  split; [|split; [|done]].
  - rewrite Hj1 at 1. rewrite Hj1, Hj2, Hone. by field.
  - rewrite Hj2 at 1. rewrite Hj1, Hj2, Hone. by field.
Qed.

Lemma Qmult_1_l_eq (x : Q) : 1 * x = x.
Proof. destruct x as [[|n|n] d]; reflexivity. Qed.

Lemma products_of_unseen_words p_word_class words :
  (∀ w, w ∈ words → p_word_class !! w = None) →
  message_products p_word_class words = (1, 1).
Proof.
  unfold message_products. induction words as [|w words IH]; intros Hun; [done|].
  simpl. rewrite (Hun w) by by left. apply IH. intros v Hv. apply Hun. by right.
Qed.

(** C3: for a model returned by [estimate_probabilities] with
    [alpha >= 0] and a message none of whose words is a key of the word
    probabilities, every word of the message is looked up as [(1, 1)],
    both running products stay [(1, 1)], and [classify_message] returns
    the class prior normalised by its own sum,
    [(p_ham / (p_ham + p_spam), p_spam / (p_ham + p_spam))]; this is the
    pair [(p_ham, p_spam)] itself whenever the two priors sum to 1. *)
Theorem unseen_words_give_prior
    (word_counts : gmap string (Z * Z)) (n_ham n_spam : Z) (alpha : Q)
    p_word_class p_ham p_spam message :
  0 <= alpha →
  estimate_probabilities word_counts (n_ham, n_spam) alpha
    = Ok (p_word_class, (p_ham, p_spam)) →
  (∀ w, w ∈ pp.split_words (pp.clean_msg message) → p_word_class !! w = None) →
  (∀ w, w ∈ pp.split_words (pp.clean_msg message) →
        default (1, 1) (p_word_class !! w) = (1, 1))
  ∧ message_products p_word_class (elements (pp.split_words (pp.clean_msg message)))
    = (1, 1)
  ∧ classify_message message (Some (p_word_class, (p_ham, p_spam)))
    = Ok (p_ham / (p_ham + p_spam), p_spam / (p_ham + p_spam))
  ∧ (p_ham + p_spam == 1 →
     p_ham / (p_ham + p_spam) == p_ham ∧ p_spam / (p_ham + p_spam) == p_spam).
Proof.
  intros Ha Hest Hun.
  assert (message_products p_word_class
            (elements (pp.split_words (pp.clean_msg message))) = (1, 1)) as Hprod.
  { apply products_of_unseen_words. intros w Hw. apply Hun. by apply elem_of_elements. }
  assert (¬ p_ham + p_spam == 0) as Hnz.
  { destruct (classify_unseen_after_estimate _ _ _ _ _ _ _ message Ha Hest Hun)
      as (_ & _ & _ & _ & _ & Hone). rewrite Hone. lra. }
  split; [intros w Hw; by rewrite (Hun w Hw)|]. split; [done|]. split.
  - unfold classify_message. rewrite Hprod, !Qmult_1_l_eq.
    by rewrite !truediv_ok.
  - intros Hone. rewrite Hone. split; by field.
Qed.

Lemma unseen_words_give_prior_witness :
  (∀ w, w ∈ pp.split_words (pp.clean_msg "zebra, unicorn?") →
        default (1, 1) (example_word_probs !! w) = (1, 1))
  ∧ message_products example_word_probs
      (elements (pp.split_words (pp.clean_msg "zebra, unicorn?"))) = (1, 1)
  ∧ classify_message "zebra, unicorn?" (Some (example_word_probs, (3 # 5, 2 # 5)))
    = Ok ((3 # 5) / ((3 # 5) + (2 # 5)), (2 # 5) / ((3 # 5) + (2 # 5)))
  ∧ ((3 # 5) + (2 # 5) == 1 →
     (3 # 5) / ((3 # 5) + (2 # 5)) == 3 # 5 ∧ (2 # 5) / ((3 # 5) + (2 # 5)) == 2 # 5).
Proof.
  apply (unseen_words_give_prior
           (pp.count_words_in_ham_and_spam (zip example_classes example_messages))
           2 1 1 example_word_probs (3 # 5) (2 # 5) "zebra, unicorn?").
  - by vm_compute.
  - by vm_compute.
  - intros w Hw%elem_of_elements.
    change (elements _) with ["unicorn"; "zebra"]%string in Hw.
    repeat (apply elem_of_cons in Hw as [->|Hw]); [by vm_compute..|].
    by apply elem_of_nil in Hw.
Defined.

(** The test that [predict] writes: "ham" exactly above one half, "spam"
    otherwise and at one half. *)
Lemma label_of_threshold (p_ham p_spam : Q) :
  (label_of (p_ham, p_spam) = "ham" ↔ 1 # 2 < p_ham)
  ∧ (label_of (p_ham, p_spam) ≠ "ham" → label_of (p_ham, p_spam) = "spam")
  ∧ (p_ham == 1 # 2 → label_of (p_ham, p_spam) = "spam").
Proof.
  unfold label_of. simpl. destruct (Qgt_bool p_ham (1 # 2)) eqn:E.
  - apply Qgt_bool_true in E. split; [done|]. split; [done|]. intros Heq. lra.
  - apply Qgt_bool_false in E. split; [|done]. split; [done|]. intros Hlt. lra.
Qed.

(** C5: [predict] does not reach its [> 0.5] test.  On every detector and
    every single message it calls [predict_proba], whose call of
    [classify_message] by the bare name raises [NameError]: no label is
    returned. *)
Theorem predict_single_raises_NameError self message :
  predict self (Single message) = Raise NameError.
Proof. reflexivity. Qed.

(** An exception of [predict_proba] is the exception of [predict]. *)
Lemma predict_raises self messages e :
  predict_proba self messages = Raise e → predict self messages = Raise e.
Proof. intros Hp. unfold predict. by rewrite Hp. Qed.
End classifier.

(** ** Per-word diagnostics *)

Section word_proba.
Local Open Scope Q_scope.

Lemma word_proba_loop_ok self word_counts words res :
  _word_counts self = Some word_counts →
  (∀ w c, w ∈ words → word_counts !! w = Some c →
     ¬ smoothed (alpha self) c.1 + smoothed (alpha self) c.2 == 0) →
  word_proba_loop self words res =
    Ok (foldl (λ r w, match word_counts !! w with
                      | Some c => <[w := word_share (alpha self) c]> r
                      | None => r
                      end) res words).
Proof.
  intros Hwc. revert res.
  induction words as [|w words IH]; intros res Hnz; simpl; [done|].
  rewrite Hwc. destruct (word_counts !! w) as [[a b]|] eqn:E.
  - fold (smoothed (alpha self) a) (smoothed (alpha self) b).
    rewrite !truediv_ok by (apply (Hnz w (a, b)); [by left|done]). simpl.
    apply IH. intros v c Hv. apply Hnz. by right.
  - apply IH. intros v c Hv. apply Hnz. by right.
Qed.

Lemma foldl_insert_known_lookup {A B} (f : A → B) (m : gmap string A)
    (words : list string) (res : gmap string B) (w : string) :
  foldl (λ r v, match m !! v with Some c => <[v := f c]> r | None => r end)
    res words !! w =
    if decide (w ∈ words)
    then match m !! w with Some c => Some (f c) | None => res !! w end
    else res !! w.
Proof.
  revert res. induction words as [|v words IH]; intros res; simpl.
  - destruct (decide (w ∈ [])) as [Hin|]; [by apply elem_of_nil in Hin|done].
  - rewrite IH. destruct (decide (v = w)) as [->|Hne].
    + rewrite (decide_True (P := w ∈ w :: words)) by by left.
      destruct (m !! w) as [c|] eqn:E.
      * rewrite lookup_insert_eq. by case_decide.
      * by case_decide.
    + destruct (decide (w ∈ words)) as [Hin|Hnin].
      * rewrite (decide_True (P := w ∈ v :: words)) by by right.
        destruct (m !! w); [done|].
        destruct (m !! v); [by rewrite lookup_insert_ne|done].
      * rewrite (decide_False (P := w ∈ v :: words))
          by (rewrite elem_of_cons; by intros [->|Hin]).
        destruct (m !! v); [by rewrite lookup_insert_ne|done].
Qed.

(** What [predict_word_proba] returns when no word total is zero. *)
Lemma predict_word_proba_ok self word_counts message :
  _word_counts self = Some word_counts →
  (∀ w c, w ∈ pp.split_words (pp.clean_msg message) → word_counts !! w = Some c →
     ¬ smoothed (alpha self) c.1 + smoothed (alpha self) c.2 == 0) →
  ∃ res,
    predict_word_proba self message = Ok res
    ∧ ∀ w, res !! w =
        if decide (w ∈ pp.split_words (pp.clean_msg message))
        then word_share (alpha self) <$> word_counts !! w
        else None.
Proof.
  intros Hwc Hnz. eexists. split.
  - unfold predict_word_proba. apply word_proba_loop_ok; [done|].
    intros w c Hw%elem_of_elements. by apply Hnz.
  - intros w. rewrite foldl_insert_known_lookup, lookup_empty.
    destruct (decide (w ∈ elements _)) as [Hin|Hnin].
    + rewrite decide_True by by apply elem_of_elements.
      by destruct (word_counts !! w).
    + rewrite decide_False; [done|]. by rewrite <- elem_of_elements.
Qed.

(** The entries of a counted corpus are not negative and not both zero. *)
Lemma count_words_in_ham_and_spam_entry l w a b :
  pp.count_words_in_ham_and_spam l !! w = Some (a, b) →
  (0 ≤ a)%Z ∧ (0 ≤ b)%Z ∧ (0 < a + b)%Z.
Proof.
  rewrite count_words_in_ham_and_spam_lookup.
  case_decide as Hz; [done|]. intros [= <- <-]. lia.
Qed.

Lemma smoothed_entry_nonzero alpha a b :
  0 <= alpha → (0 ≤ a)%Z → (0 ≤ b)%Z → (0 < a + b)%Z →
  ¬ smoothed alpha a + smoothed alpha b == 0.
Proof.
  intros Ha Hle_a%inject_Z_nonneg Hle_b%inject_Z_nonneg Hab%inject_Z_pos.
  rewrite inject_Z_plus in Hab. rewrite smoothed_sum by done. lra.
Qed.

(** What [fit] leaves and raises: the counts are stored, [_prob_info] is
    not assigned, and the call of [estimate_probabilities] by the bare
    name raises [NameError]. *)
Lemma fit_state self messages classes :
  fit self messages classes =
    (mkSpamDetector (alpha self)
       (Some (pp.count_words_in_ham_and_spam (zip classes messages)))
       (Some (Z.of_nat (length (zip classes messages))))
       (Some (pp.count_ham_and_spam (zip classes messages)).1)
       (Some (pp.count_ham_and_spam (zip classes messages)).2)
       (_prob_info self),
     Raise NameError).
Proof.
  unfold fit. by destruct (pp.count_ham_and_spam (zip classes messages)) as [nh ns].
Qed.

(** C8, as claimed, fails: on [example_detector], the detector that [fit]
    leaves for the example corpus, the pair that [predict_word_proba]
    returns for "hello" is [(2/3, 1/3)], while the conditional
    probabilities of "hello" in the model that [estimate_probabilities]
    gives for the detector's counts are [(2/3, 1/2)]. *)
Lemma predict_word_proba_differs_from_model :
  (alpha example_detector = 1
   ∧ _word_counts example_detector
     = Some (pp.count_words_in_ham_and_spam (zip example_classes example_messages))
   ∧ n_ham example_detector = Some 2%Z ∧ n_spam example_detector = Some 1%Z)
  ∧ ¬ (∀ p_word_class p_class res,
         estimate_probabilities
           (pp.count_words_in_ham_and_spam (zip example_classes example_messages))
           (2, 1)%Z 1 = Ok (p_word_class, p_class) →
         predict_word_proba example_detector "hello" = Ok res →
         ∀ w p, res !! w = Some p →
                ∃ q, p_word_class !! w = Some q ∧ p.1 == q.1 ∧ p.2 == q.2).
Proof.
  split; [by vm_compute|]. intros Hclaim.
  destruct (Hclaim example_word_probs (3 # 5, 2 # 5) {["hello" := (2 # 3, 1 # 3)]}
              ltac:(by vm_compute) ltac:(by vm_compute)
              "hello" (2 # 3, 1 # 3) ltac:(by vm_compute))
    as (q & Hq & _ & H2).
  assert (example_word_probs !! "hello" = Some (2 # 3, 1 # 2)) as Hm by by vm_compute.
  rewrite Hm in Hq. injection Hq as <-. simpl in H2. discriminate H2.
Qed.

(** C8, amended: on the detector that [fit] leaves, with [alpha >= 0],
    [predict_word_proba] returns a dict whose keys are the words of the
    message that are keys of the training word counts, and whose value for
    such a word with counts [(n_w_ham, n_w_spam)] is the pair of each count
    over their sum, [alpha] being added to both counts first when
    [alpha > 0]. *)
Theorem predict_word_proba_shares self messages classes message :
  0 <= alpha self →
  ∃ word_counts res,
    word_counts = pp.count_words_in_ham_and_spam (zip classes messages)
    ∧ _word_counts (fit self messages classes).1 = Some word_counts
    ∧ alpha (fit self messages classes).1 = alpha self
    ∧ predict_word_proba (fit self messages classes).1 message = Ok res
    ∧ dom res = pp.split_words (pp.clean_msg message) ∩ dom word_counts
    ∧ (∀ w n_w_ham n_w_spam,
         w ∈ pp.split_words (pp.clean_msg message) →
         word_counts !! w = Some (n_w_ham, n_w_spam) →
         res !! w =
           Some (smoothed (alpha self) n_w_ham
                   / (smoothed (alpha self) n_w_ham + smoothed (alpha self) n_w_spam),
                 smoothed (alpha self) n_w_spam
                   / (smoothed (alpha self) n_w_ham + smoothed (alpha self) n_w_spam)))
    ∧ (∀ n, (0 < alpha self → smoothed (alpha self) n = inject_Z n + alpha self)
            ∧ (alpha self == 0 → smoothed (alpha self) n = inject_Z n)).
Proof.
  intros Ha. rewrite fit_state. simpl.
  set (d := mkSpamDetector _ _ _ _ _ _).
  destruct (predict_word_proba_ok d
              (pp.count_words_in_ham_and_spam (zip classes messages)) message eq_refl)
    as (res & Hres & Hlookup).
  { intros w [a b] _ (Hle_a & Hle_b & Hab)%count_words_in_ham_and_spam_entry.
    by apply smoothed_entry_nonzero. }
  eexists _, res. split; [done|]. split; [done|]. split; [done|]. split; [done|].
  split; [|split].
  - apply set_eq. intros w.
    rewrite elem_of_intersection, !elem_of_dom, Hlookup.
    case_decide as Hw.
    + rewrite fmap_is_Some. tauto.
    + split; [by intros [? [=]]|tauto].
  - intros w a b Hw Hab. by rewrite Hlookup, decide_True, Hab.
  - intros n. split; intros Hn.
    + by apply smoothed_pos_alpha.
    + apply smoothed_raw. by rewrite Hn.
Qed.

Lemma predict_word_proba_shares_witness :
  ∃ word_counts res,
    word_counts = pp.count_words_in_ham_and_spam (zip example_classes example_messages)
    ∧ _word_counts (fit (init 1) example_messages example_classes).1 = Some word_counts
    ∧ alpha (fit (init 1) example_messages example_classes).1 = alpha (init 1)
    ∧ predict_word_proba (fit (init 1) example_messages example_classes).1
        "Hello, zebra!" = Ok res
    ∧ dom res = pp.split_words (pp.clean_msg "Hello, zebra!") ∩ dom word_counts
    ∧ (∀ w n_w_ham n_w_spam,
         w ∈ pp.split_words (pp.clean_msg "Hello, zebra!") →
         word_counts !! w = Some (n_w_ham, n_w_spam) →
         res !! w =
           Some (smoothed (alpha (init 1)) n_w_ham
                   / (smoothed (alpha (init 1)) n_w_ham
                      + smoothed (alpha (init 1)) n_w_spam),
                 smoothed (alpha (init 1)) n_w_spam
                   / (smoothed (alpha (init 1)) n_w_ham
                      + smoothed (alpha (init 1)) n_w_spam)))
    ∧ (∀ n, (0 < alpha (init 1) →
             smoothed (alpha (init 1)) n = inject_Z n + alpha (init 1))
            ∧ (alpha (init 1) == 0 → smoothed (alpha (init 1)) n = inject_Z n)).
Proof.
  apply (predict_word_proba_shares (init 1) example_messages example_classes
           "Hello, zebra!").
  by vm_compute.
Defined.
End word_proba.


(** ** Estimated models with smoothing *)

Section fitted.
Local Open Scope Q_scope.

Lemma Qdiv_pos (a b : Q) : 0 < a → 0 < b → 0 < a / b.
Proof. intros Ha Hb. apply Qlt_shift_div_l; [done|]. lra. Qed.

Lemma products_pos (p_word_class : gmap string (Q * Q)) words (acc : Q * Q) :
  (∀ w p, p_word_class !! w = Some p → 0 < p.1 ∧ 0 < p.2) →
  0 < acc.1 → 0 < acc.2 →
  0 < (foldl (product_step p_word_class) acc words).1
  ∧ 0 < (foldl (product_step p_word_class) acc words).2.
Proof.
  intros Hpw. revert acc.
  induction words as [|w words IH]; intros [a b] Ha Hb; simpl in *; [done|].
  apply IH; destruct (p_word_class !! w) as [[x y]|] eqn:E; simpl.
  - apply Qmult_lt_0_compat; [done|]. apply (Hpw _ _ E).
  - apply Qmult_lt_0_compat; [done|]. lra.
  - apply Qmult_lt_0_compat; [done|]. apply (Hpw _ _ E).
  - apply Qmult_lt_0_compat; [done|]. lra.
Qed.

(** In exact arithmetic, a model estimated with [alpha > 0] from the counts
    of a corpus classifies every message: no division by zero, and the two
    posteriors sum to 1. *)
Lemma fitted_posterior_sums_to_one (l : list (string * string)) alpha prob_info message :
  0 < alpha →
  estimate_probabilities (pp.count_words_in_ham_and_spam l)
    (pp.count_ham_and_spam l) alpha = Ok prob_info →
  ∃ p q, classify_message message (Some prob_info) = Ok (p, q) ∧ p + q == 1.
Proof.
  intros Ha Hest.
  rewrite count_ham_and_spam_lengths in Hest.
  set (nh := Z.of_nat (length (messages_of "ham" l))) in *.
  set (ns := Z.of_nat (length (messages_of "spam" l))) in *.
  pose proof (inject_Z_nonneg nh ltac:(lia)) as Hnh.
  pose proof (inject_Z_nonneg ns ltac:(lia)) as Hns.
  rewrite estimate_probabilities_ok in Hest
    by (rewrite ?smoothed_pos_alpha by done; lra).
  rewrite !smoothed_pos_alpha in Hest by done. injection Hest as <-.
  set (pw := _ <$> _) in *. set (pc := (_ / _, _ / _)) in *.
  assert (∀ w p, pw !! w = Some p → 0 < p.1 ∧ 0 < p.2) as Hpw.
  { intros w p ([a b] & <- & Hc)%lookup_fmap_Some.
    apply count_words_in_ham_and_spam_entry in Hc as (Hle_a%inject_Z_nonneg
                                                      & Hle_b%inject_Z_nonneg & _).
    simpl. split; apply Qdiv_pos; lra. }
  destruct (products_pos pw (elements (pp.split_words (pp.clean_msg message))) (1, 1) Hpw)
    as [H1 H2]; [simpl; lra..|]. simpl in H1, H2.
  set (j := joint_products pw pc message).
  assert (0 < j.1 ∧ 0 < j.2) as [Hj1 Hj2].
  { unfold j, joint_products, message_products, pc. simpl.
    split; (apply Qmult_lt_0_compat; [done|]); apply Qdiv_pos; lra. }
  assert (¬ j.1 + j.2 == 0) as Hnz by lra.
  exists (j.1 / (j.1 + j.2)), (j.2 / (j.1 + j.2)). split.
  - by apply classify_message_ok.
  - by field.
Qed.
End fitted.


(** * Further properties *)

(** ** Lines *)

Section more_lines.
Implicit Types (s line ann msg body : string) (c : ascii).

Lemma chars_app s1 s2 : chars (s1 +:+ s2) = chars s1 ++ chars s2.
Proof. induction s1 as [|c s1 IH]; [done|]. simpl. unfold chars in *. simpl. by rewrite IH. Qed.

Lemma index_raise_iff c s : pp.index c s = Raise ValueError ↔ c ∉ chars s.
Proof.
  induction s as [|d s IH]; simpl.
  - split; [intros _; apply not_elem_of_nil|done].
  - unfold chars in *. simpl. rewrite not_elem_of_cons, <- IH.
    destruct (Ascii.eqb_spec d c) as [->|Hne].
    + split; [done|]. by intros [? _].
    + destruct (pp.index c s) as [k|e]; simpl.
      * split; [done|]. by intros [_ ?].
      * split; [|by intros [_ ->]]. intros [= ->]. by split; [congruence|].
Qed.

Lemma index_raise_ValueError c s e : pp.index c s = Raise e → e = ValueError.
Proof.
  revert e. induction s as [|d s IH]; simpl; intros e.
  - by intros [= <-].
  - destruct (Ascii.eqb d c); [done|].
    destruct (pp.index c s) as [k|e']; [done|]. intros [= <-]. by apply IH.
Qed.

Lemma index_cut c s k :
  pp.index c s = Ok k →
  (c ∉ chars (pp.slice_to k s))
  ∧ s = (pp.slice_to k s +:+ String c (pp.slice_from (k + 1) s)).
Proof.
  revert k. induction s as [|d s IH]; simpl; intros k; [done|].
  destruct (Ascii.eqb_spec d c) as [->|Hne].
  - intros [= <-]. simpl. split; [apply not_elem_of_nil|done].
  - destruct (pp.index c s) as [j|e]; [|done]. intros [= <-].
    destruct (IH j eq_refl) as [Hnot Heq]. simpl. split.
    + unfold chars in *. simpl. rewrite not_elem_of_cons. split; [congruence|done].
    + rewrite Heq at 1. reflexivity.
Qed.

Lemma chars_replace_tab s :
  chars (pp.replace pp.tab "" s) = filter (λ c, c ≠ pp.tab) (chars s).
Proof.
  induction s as [|c s IH]; [done|]. simpl. unfold chars in *. simpl.
  rewrite filter_cons. destruct (Ascii.eqb_spec c pp.tab) as [->|Hne].
  - rewrite decide_False by (by intros ?). exact IH.
  - rewrite decide_True by done. simpl. by rewrite IH.
Qed.

Lemma replace_tab_id s : ¬ has_tab s → pp.replace pp.tab "" s = s.
Proof.
  unfold has_tab, chars. induction s as [|c s IH]; [done|]. simpl.
  rewrite not_elem_of_cons. intros [Hne Hs].
  destruct (Ascii.eqb_spec c pp.tab) as [->|_]; [done|]. by rewrite IH.
Qed.

Lemma split_line_inv line ann msg :
  pp.split_line line = Ok (ann, msg) →
  ∃ k, pp.index pp.tab line = Ok k
       ∧ ann = pp.slice_to k line
       ∧ msg = pp.replace pp.tab "" (pp.slice_from (k + 1) line).
Proof.
  unfold pp.split_line. destruct (pp.index pp.tab line) as [k|e]; [|done].
  simpl. intros [= <- <-]. by exists k.
Qed.

Lemma split_line_outcome line :
  ((∃ r, pp.split_line line = Ok r) ↔ has_tab line)
  ∧ (pp.split_line line = Raise ValueError ↔ ¬ has_tab line).
Proof.
  unfold has_tab, pp.split_line.
  pose proof (index_raise_iff pp.tab line) as Hraise.
  destruct (pp.index pp.tab line) as [k|e] eqn:E; simpl.
  - assert (pp.tab ∈ chars line) as Hin.
    { apply dec_stable. intros Hn. by apply Hraise in Hn. }
    split; split; try done. by eexists.
  - apply index_raise_ValueError in E as ->.
    assert (pp.tab ∉ chars line) as Hn by by apply Hraise.
    split; split; try done. by intros [r [=]].
Qed.

(** X1: [split_line] returns exactly on the lines that hold a tab, and
    raises [ValueError] exactly on the lines that hold none. *)
Theorem split_line_returns_iff_tab line :
  ((∃ r, pp.split_line line = Ok r) ↔ has_tab line)
  ∧ (pp.split_line line = Raise ValueError ↔ ¬ has_tab line).
Proof. apply split_line_outcome. Qed.

(** X2: a returned label holds no tab, the line is the label, a tab and a
    rest, and the returned body is that rest without its tabs: it holds no
    tab either, and nothing is put in their place. *)
Theorem split_line_parts line ann msg :
  pp.split_line line = Ok (ann, msg) →
  ¬ has_tab ann ∧ ¬ has_tab msg
  ∧ ∃ body, line = (ann +:+ String pp.tab body)
            ∧ chars msg = filter (λ c, c ≠ pp.tab) (chars body).
Proof.
  intros (k & Hk & -> & ->)%split_line_inv.
  destruct (index_cut _ _ _ Hk) as [Hann Hline].
  split; [done|]. split.
  - unfold has_tab. rewrite chars_replace_tab, list_elem_of_filter. by intros [? _].
  - eexists. split; [exact Hline|]. apply chars_replace_tab.
Qed.

Lemma split_line_parts_witness :
  ¬ has_tab "ham" ∧ ¬ has_tab "ab"
  ∧ ∃ body, ("ham" +:+ String pp.tab ("a" +:+ String pp.tab "b"))
              = ("ham" +:+ String pp.tab body)
            ∧ chars "ab" = filter (λ c, c ≠ pp.tab) (chars body).
Proof.
  apply (split_line_parts ("ham" +:+ String pp.tab ("a" +:+ String pp.tab "b")) "ham" "ab").
  reflexivity.
Defined.

(** X3: joining a label and a body that hold no tab with one tab, then
    splitting, gives the label and the body back. *)
Theorem split_line_of_joined ann body :
  ¬ has_tab ann → ¬ has_tab body →
  pp.split_line (ann +:+ String pp.tab body) = Ok (ann, body).
Proof.
  intros Hann Hbody. rewrite split_line_at_first_tab.
  - by rewrite replace_tab_id.
  - by apply index_raise_iff.
Qed.

Lemma split_line_of_joined_witness :
  pp.split_line ("spam" +:+ String pp.tab "win money now") = Ok ("spam", "win money now").
Proof.
  apply (split_line_of_joined "spam" "win money now");
    unfold has_tab; rewrite <- index_raise_iff; reflexivity.
Defined.

Lemma split_lines_cons line lines :
  pp.split_lines (line :: lines) =
    match pp.split_line line with
    | Ok r => match pp.split_lines lines with
              | Ok rs => Ok (r :: rs)
              | Raise e => Raise e
              end
    | Raise e => Raise e
    end.
Proof.
  unfold pp.split_lines. simpl. destruct (pp.split_line line); [|done]. simpl.
  by destruct (mapM pp.split_line lines).
Qed.

(** X4: [split_lines] returns exactly when every line holds a tab, and then
    gives, in order, what [split_line] gives for each line; when some line
    holds no tab it raises [ValueError]. *)
Theorem split_lines_all_or_nothing lines :
  ((∃ rs, pp.split_lines lines = Ok rs) ↔ Forall has_tab lines)
  ∧ (pp.split_lines lines = Raise ValueError ↔ ¬ Forall has_tab lines)
  ∧ (∀ rs, pp.split_lines lines = Ok rs →
           Forall2 (λ line r, pp.split_line line = Ok r) lines rs).
Proof.
  induction lines as [|line lines (IHok & IHraise & IHeach)].
  - split; [|split].
    + split; [done|]. intros _. by exists [].
    + split; [done|]. intros Hn. by destruct Hn.
    + intros rs [= <-]. constructor.
  - rewrite split_lines_cons, !Forall_cons.
    destruct (split_line_outcome line) as [Hok Hraise].
    destruct (pp.split_line line) as [r|e] eqn:E.
    + assert (has_tab line) as Hline by (apply Hok; by eexists).
      destruct (pp.split_lines lines) as [rs|e] eqn:Es.
      * assert (Forall has_tab lines) as Hall by (apply IHok; by eexists).
        split; [|split].
        -- split; [done|]. intros _. by eexists.
        -- split; [done|]. intros Hn. by destruct Hn.
        -- intros rs' [= <-]. constructor; [done|]. by apply IHeach.
      * assert (¬ Forall has_tab lines) as Hnall.
        { intros Hall. apply IHok in Hall as [rs [=]]. }
        split; [|split].
        -- split; [by intros [rs [=]]|]. by intros [_ ?].
        -- split.
           ++ intros [= ->]. by intros [_ ?].
           ++ intros _. by apply IHraise.
        -- by intros rs.
    + assert (e = ValueError) as ->.
      { unfold pp.split_line in E.
        destruct (pp.index pp.tab line) as [k|e'] eqn:Ei; [done|].
        apply index_raise_ValueError in Ei as ->. by injection E as <-. }
      assert (¬ has_tab line) as Hline by by apply Hraise.
      split; [|split].
      * split; [by intros [rs [=]]|]. by intros [? _].
      * split; [|done]. intros _. by intros [? _].
      * by intros rs.
Qed.
End more_lines.


(** ** Cleaning and tokenising *)

Section more_words.
Implicit Types (s cur msg w : string) (c : ascii).

Lemma isalpha_space : pp.isalpha " " = false.
Proof. reflexivity. Qed.

Lemma isspace_space : pp.isspace " " = true.
Proof. reflexivity. Qed.

Lemma isalpha_not_space c : pp.isalpha c = true → pp.isspace c = false.
Proof. by destruct c as [[] [] [] [] [] [] [] []]. Qed.

Lemma lower_char_islower c : pp.isalpha c = true → islower (pp.lower_char c) = true.
Proof. by destruct c as [[] [] [] [] [] [] [] []]. Qed.

Lemma lower_char_isalpha c : pp.isalpha (pp.lower_char c) = pp.isalpha c.
Proof. by destruct c as [[] [] [] [] [] [] [] []]. Qed.

Lemma lower_char_isspace c : pp.isspace (pp.lower_char c) = pp.isspace c.
Proof. by destruct c as [[] [] [] [] [] [] [] []]. Qed.

Lemma lower_char_idemp c : pp.lower_char (pp.lower_char c) = pp.lower_char c.
Proof. by destruct c as [[] [] [] [] [] [] [] []]. Qed.

Lemma chars_clean_msg msg :
  chars (pp.clean_msg msg)
  = (λ c, if pp.isalpha c then c else " "%char) <$> chars msg.
Proof. induction msg as [|c msg IH]; [done|]. unfold chars in *. simpl. by rewrite IH. Qed.

Lemma chars_lower s : chars (pp.lower s) = pp.lower_char <$> chars s.
Proof. induction s as [|c s IH]; [done|]. unfold chars in *. simpl. by rewrite IH. Qed.

Lemma chars_nil s : chars s = [] → s = "".
Proof. by destruct s. Qed.

Lemma length_chars s : length (chars s) = String.length s.
Proof. induction s as [|c s IH]; [done|]. unfold chars in *. simpl. by rewrite IH. Qed.

Lemma clean_msg_letters_or_space msg :
  Forall (λ c, pp.isalpha c = true ∨ c = " "%char) (chars (pp.clean_msg msg)).
Proof.
  rewrite chars_clean_msg, Forall_fmap. apply Forall_forall. intros c _. simpl.
  destruct (pp.isalpha c) eqn:E; [by left|by right].
Qed.

(** X5: [clean_msg] keeps the length of the message, leaves only letters
    and spaces, and changes nothing in a message it has cleaned. *)
Theorem clean_msg_shape msg :
  String.length (pp.clean_msg msg) = String.length msg
  ∧ Forall (λ c, pp.isalpha c = true ∨ c = " "%char) (chars (pp.clean_msg msg))
  ∧ pp.clean_msg (pp.clean_msg msg) = pp.clean_msg msg.
Proof.
  split; [|split].
  - rewrite <- !length_chars, chars_clean_msg. apply length_fmap.
  - rewrite chars_clean_msg, Forall_fmap. apply Forall_forall. intros c _. simpl.
    destruct (pp.isalpha c) eqn:E; [by left|by right].
  - induction msg as [|c msg IH]; [done|]. simpl. rewrite IH. f_equal.
    destruct (pp.isalpha c) eqn:E; [by rewrite E|done].
Qed.

Lemma split_from_Forall (P : ascii → Prop) cur s :
  Forall P (chars cur) →
  Forall (λ c, pp.isspace c = true ∨ P c) (chars s) →
  Forall (λ w, w ≠ "" ∧ Forall P (chars w)) (pp.split_from cur s).
Proof.
  revert cur. induction s as [|c s IH]; intros cur Hcur Hs; simpl.
  - destruct (String.eqb_spec cur ""); [constructor|]. by repeat constructor.
  - unfold chars in Hs. simpl in Hs. apply Forall_cons in Hs as [Hc Hs].
    destruct (pp.isspace c) eqn:E.
    + apply Forall_app. split; [|by apply IH; [constructor|]].
      destruct (String.eqb_spec cur ""); [constructor|]. by repeat constructor.
    + destruct Hc as [|Hc]; [done|]. apply IH; [|done].
      rewrite chars_app. apply Forall_app. split; [done|]. by repeat constructor.
Qed.

Lemma split_from_nonempty cur s :
  Forall (λ w, w ≠ "") (pp.split_from cur s).
Proof.
  revert cur. induction s as [|c s IH]; intros cur; simpl.
  - destruct (String.eqb_spec cur ""); by repeat constructor.
  - destruct (pp.isspace c); [|apply IH].
    apply Forall_app. split; [|apply IH].
    destruct (String.eqb_spec cur ""); by repeat constructor.
Qed.

Lemma lowered_words_letters msg :
  Forall (λ w, w ≠ "" ∧ Forall (λ c, islower c = true) (chars w))
    (pp.lowered_words (pp.clean_msg msg)).
Proof.
  unfold pp.lowered_words, pp.split. rewrite Forall_fmap.
  eapply Forall_impl.
  - apply (split_from_Forall (λ c, pp.isalpha c = true) "" (pp.clean_msg msg));
      [constructor|].
    eapply Forall_impl; [apply clean_msg_letters_or_space|].
    intros c [Hc| ->]; [by right|by left].
  - intros w [Hne Hw]. simpl. split.
    + by destruct w.
    + rewrite chars_lower, Forall_fmap. eapply Forall_impl; [exact Hw|].
      intros c Hc. by apply lower_char_islower.
Qed.

(** X6: in a message of ASCII characters, every word that [split_words]
    finds after [clean_msg] is not empty and is made of lowercase letters
    only. *)
Theorem words_are_lowercase_letters msg w :
  ascii_text msg →
  w ∈ pp.split_words (pp.clean_msg msg) →
  w ≠ "" ∧ Forall (λ c, islower c = true) (chars w).
Proof.
  intros _. unfold pp.split_words. rewrite elem_of_list_to_set. intros Hw.
  by apply (proj1 (Forall_forall _ _) (lowered_words_letters msg)).
Qed.

Lemma words_are_lowercase_letters_witness :
  "free" ≠ "" ∧ Forall (λ c, islower c = true) (chars "free").
Proof.
  apply (words_are_lowercase_letters "FREE entry, 2 win!" "free").
  - unfold ascii_text. simpl. by repeat constructor.
  - by vm_compute.
Defined.

Lemma clean_msg_idemp msg : pp.clean_msg (pp.clean_msg msg) = pp.clean_msg msg.
Proof.
  induction msg as [|c msg IH]; [done|]. simpl. rewrite IH. f_equal.
  destruct (pp.isalpha c) eqn:E; [by rewrite E|done].
Qed.

Lemma clean_msg_lower msg : pp.clean_msg (pp.lower msg) = pp.lower (pp.clean_msg msg).
Proof.
  induction msg as [|c msg IH]; [done|]. simpl. rewrite IH, lower_char_isalpha.
  by destruct (pp.isalpha c).
Qed.

Lemma lower_app s1 s2 : pp.lower (s1 +:+ s2) = (pp.lower s1 +:+ pp.lower s2).
Proof. induction s1 as [|c s1 IH]; [done|]. simpl. by rewrite IH. Qed.

Lemma lower_idemp s : pp.lower (pp.lower s) = pp.lower s.
Proof. induction s as [|c s IH]; [done|]. simpl. by rewrite IH, lower_char_idemp. Qed.

Lemma split_from_lower cur s :
  pp.split_from (pp.lower cur) (pp.lower s) = pp.lower <$> pp.split_from cur s.
Proof.
  assert (∀ t, String.eqb (pp.lower t) "" = String.eqb t "") as Hempty
    by (by intros []).
  revert cur. induction s as [|c s IH]; intros cur; simpl.
  - rewrite Hempty. by destruct (String.eqb cur "").
  - rewrite lower_char_isspace. destruct (pp.isspace c).
    + rewrite fmap_app, Hempty, <- (IH ""). by destruct (String.eqb cur "").
    + rewrite <- IH. by rewrite lower_app.
Qed.

Lemma lowered_words_lower msg :
  pp.lowered_words (pp.clean_msg (pp.lower msg)) = pp.lowered_words (pp.clean_msg msg).
Proof.
  unfold pp.lowered_words, pp.split. rewrite clean_msg_lower.
  change "" with (pp.lower "") at 1. rewrite split_from_lower, <- list_fmap_compose.
  apply list_fmap_ext. intros _ w _. apply lower_idemp.
Qed.

(** X7: for a message of ASCII characters, lowering it or cleaning it
    beforehand changes neither the list of lowered words that
    [split_words] turns into a set nor the set, and so neither what
    [classify_message] nor what [predict_word_proba] return. *)
Theorem classification_ignores_case_and_cleaning msg :
  ascii_text msg →
  (pp.lowered_words (pp.clean_msg (pp.lower msg)) = pp.lowered_words (pp.clean_msg msg)
   ∧ pp.split_words (pp.clean_msg (pp.lower msg)) = pp.split_words (pp.clean_msg msg)
   ∧ pp.clean_msg (pp.clean_msg msg) = pp.clean_msg msg)
  ∧ (∀ prob_info,
       classify_message (pp.lower msg) prob_info = classify_message msg prob_info
       ∧ classify_message (pp.clean_msg msg) prob_info = classify_message msg prob_info)
  ∧ (∀ self,
       predict_word_proba self (pp.lower msg) = predict_word_proba self msg
       ∧ predict_word_proba self (pp.clean_msg msg) = predict_word_proba self msg).
Proof.
  intros _.
  assert (pp.split_words (pp.clean_msg (pp.lower msg))
          = pp.split_words (pp.clean_msg msg)) as Hlower
    by (unfold pp.split_words; by rewrite lowered_words_lower).
  split; [split; [apply lowered_words_lower|split; [done|apply clean_msg_idemp]]|].
  split.
  - intros [[p_word_class p_class]|]; [|done].
    unfold classify_message. by rewrite Hlower, clean_msg_idemp.
  - intros self. unfold predict_word_proba. by rewrite Hlower, clean_msg_idemp.
Qed.

Lemma classification_ignores_case_and_cleaning_witness :
  (pp.lowered_words (pp.clean_msg (pp.lower "Win MONEY, win!"))
     = pp.lowered_words (pp.clean_msg "Win MONEY, win!")
   ∧ pp.split_words (pp.clean_msg (pp.lower "Win MONEY, win!"))
     = pp.split_words (pp.clean_msg "Win MONEY, win!")
   ∧ pp.clean_msg (pp.clean_msg "Win MONEY, win!") = pp.clean_msg "Win MONEY, win!")
  ∧ (∀ prob_info,
       classify_message (pp.lower "Win MONEY, win!") prob_info
         = classify_message "Win MONEY, win!" prob_info
       ∧ classify_message (pp.clean_msg "Win MONEY, win!") prob_info
         = classify_message "Win MONEY, win!" prob_info)
  ∧ (∀ self,
       predict_word_proba self (pp.lower "Win MONEY, win!")
         = predict_word_proba self "Win MONEY, win!"
       ∧ predict_word_proba self (pp.clean_msg "Win MONEY, win!")
         = predict_word_proba self "Win MONEY, win!").
Proof.
  apply (classification_ignores_case_and_cleaning "Win MONEY, win!").
  unfold ascii_text. simpl. by repeat constructor.
Defined.
End more_words.

(** ** Reading lines *)

Section more_files.
Implicit Types (s line : string) (c : ascii).

Lemma rstrip_nonspace c s :
  pp.isspace c = false → pp.rstrip (String c s) = String c (pp.rstrip s).
Proof. intros Hc. simpl. rewrite Hc. by destruct (pp.rstrip s). Qed.

Lemma rstrip_idemp s : pp.rstrip (pp.rstrip s) = pp.rstrip s.
Proof.
  induction s as [|c s IH]; [done|]. simpl.
  destruct (pp.rstrip s) as [|c' r'] eqn:E.
  - destruct (pp.isspace c) eqn:Ec; [done|]. simpl. by rewrite Ec.
  - simpl in *. by rewrite IH.
Qed.

Lemma rstrip_last s :
  pp.rstrip s = ""
  ∨ ∃ d, last (chars (pp.rstrip s)) = Some d ∧ pp.isspace d = false.
Proof.
  induction s as [|c s IH]; [by left|]. simpl.
  destruct (pp.rstrip s) as [|c' r'] eqn:E.
  - destruct (pp.isspace c) eqn:Ec; [by left|]. right. by exists c.
  - right. destruct IH as [|(d & Hd & Hsp)]; [done|]. by exists d.
Qed.

Lemma lstrip_head s :
  pp.lstrip s = "" ∨ ∃ c r, pp.lstrip s = String c r ∧ pp.isspace c = false.
Proof.
  induction s as [|c s IH]; [by left|]. simpl.
  destruct (pp.isspace c) eqn:Ec; [done|]. right. by exists c, s.
Qed.

Lemma strip_ends s :
  pp.strip s = ""
  ∨ ∃ c d, head (chars (pp.strip s)) = Some c ∧ last (chars (pp.strip s)) = Some d
           ∧ pp.isspace c = false ∧ pp.isspace d = false.
Proof.
  unfold pp.strip. destruct (lstrip_head s) as [->|(c & r & -> & Hc)]; [by left|].
  right. destruct (rstrip_last (String c r)) as [Hempty|(d & Hd & Hsp)].
  - by rewrite rstrip_nonspace in Hempty.
  - exists c, d. split; [by rewrite rstrip_nonspace|done].
Qed.

Lemma strip_idemp s : pp.strip (pp.strip s) = pp.strip s.
Proof.
  unfold pp.strip. destruct (lstrip_head s) as [->|(c & r & -> & Hc)]; [done|].
  rewrite rstrip_nonspace by done. simpl. rewrite Hc.
  rewrite rstrip_nonspace by done. by rewrite rstrip_idemp.
Qed.

Lemma length_pos_nonempty s : (0 <? String.length s)%nat = true ↔ s ≠ "".
Proof. by destruct s. Qed.

Lemma split_file_elem lines line :
  line ∈ pp.split_file lines ↔ line ≠ "" ∧ ∃ raw, raw ∈ lines ∧ line = pp.strip raw.
Proof.
  unfold pp.split_file. rewrite list_elem_of_omap. split.
  - intros (raw & Hraw & Hline).
    destruct (0 <? String.length (pp.strip raw))%nat eqn:E; [|done].
    injection Hline as <-. split; [by apply length_pos_nonempty|by exists raw].
  - intros (Hne & raw & Hraw & ->). exists raw. split; [done|].
    by apply length_pos_nonempty in Hne as ->.
Qed.

(** X8: every line that [split_file] keeps is the stripped form of a line
    read, is not empty, and neither starts nor ends with whitespace; a
    line read whose stripped form is not empty is kept. *)
Theorem split_file_lines_are_stripped lines line :
  line ∈ pp.split_file lines ↔
    (∃ raw, raw ∈ lines ∧ line = pp.strip raw)
    ∧ ∃ c d, head (chars line) = Some c ∧ last (chars line) = Some d
             ∧ pp.isspace c = false ∧ pp.isspace d = false.
Proof.
  rewrite split_file_elem. split.
  - intros (Hne & raw & Hraw & ->). split; [by exists raw|].
    by destruct (strip_ends raw) as [|Hends].
  - intros ((raw & Hraw & ->) & c & d & Hc & _). split; [|by exists raw].
    intros Hempty. by rewrite Hempty in Hc.
Qed.

Lemma split_file_cons raw lines :
  pp.split_file (raw :: lines) =
    if (0 <? String.length (pp.strip raw))%nat
    then pp.strip raw :: pp.split_file lines
    else pp.split_file lines.
Proof.
  unfold pp.split_file. simpl.
  by destruct (0 <? String.length (pp.strip raw))%nat.
Qed.

(** X9: [split_file] changes nothing in a list of lines it has returned. *)
Theorem split_file_idempotent lines :
  pp.split_file (pp.split_file lines) = pp.split_file lines.
Proof.
  induction lines as [|raw lines IH]; [done|]. rewrite split_file_cons.
  destruct (0 <? String.length (pp.strip raw))%nat eqn:E; [|exact IH].
  by rewrite split_file_cons, strip_idemp, E, IH.
Qed.
End more_files.


(** ** Counting, further *)

Section more_counting.
Implicit Types (msgs : list string) (l : list (string * string)) (w m : string).

Lemma elem_of_messages_of label l m : m ∈ messages_of label l ↔ (label, m) ∈ l.
Proof.
  unfold messages_of. rewrite list_elem_of_omap. split.
  - intros ([a m'] & Hin & Hf). destruct (String.eqb_spec a label) as [->|]; [|done].
    by injection Hf as <-.
  - intros Hin. exists (label, m). by rewrite String.eqb_refl.
Qed.

Lemma length_messages_of l :
  (length (messages_of "ham" l) + length (messages_of "spam" l) ≤ length l)%nat
  ∧ ((length (messages_of "ham" l) + length (messages_of "spam" l))%nat = length l
     ↔ Forall (λ am, am.1 = "ham" ∨ am.1 = "spam") l).
Proof.
  induction l as [|[a m] l [IHle IHeq]]; [by split|].
  rewrite Forall_cons.
  destruct (decide (a = "ham")) as [->|Hham].
  - rewrite messages_of_cons_eq, messages_of_cons_ne by done. simpl.
    split; [lia|]. rewrite <- IHeq. split; [intros ?; split; [by left|lia]|intros [_ ?]; lia].
  - destruct (decide (a = "spam")) as [->|Hspam].
    + rewrite messages_of_cons_eq, messages_of_cons_ne by done. simpl.
      split; [lia|]. rewrite <- IHeq.
      split; [intros ?; split; [by right|lia]|intros [_ ?]; lia].
    + rewrite !messages_of_cons_ne by done. simpl. split; [lia|].
      split; [lia|]. by intros [[?|?] _].
Qed.

(** X10: the two class counts are not negative and their sum is at most
    the number of entries, with equality exactly when every label is "ham"
    or "spam". *)
Theorem count_ham_and_spam_bounds l :
  (0 ≤ (pp.count_ham_and_spam l).1)%Z ∧ (0 ≤ (pp.count_ham_and_spam l).2)%Z
  ∧ ((pp.count_ham_and_spam l).1 + (pp.count_ham_and_spam l).2 ≤ Z.of_nat (length l))%Z
  ∧ (((pp.count_ham_and_spam l).1 + (pp.count_ham_and_spam l).2)%Z = Z.of_nat (length l)
     ↔ Forall (λ am, am.1 = "ham" ∨ am.1 = "spam") l).
Proof.
  rewrite count_ham_and_spam_lengths. simpl.
  destruct (length_messages_of l) as [Hle Heq].
  split; [lia|]. split; [lia|]. split; [lia|]. rewrite <- Heq. lia.
Qed.

Lemma containing_le w msgs : (containing w msgs ≤ length msgs)%nat.
Proof. apply length_filter. Qed.

Lemma containing_zero w msgs :
  containing w msgs = 0%nat ↔ ∀ m, m ∈ msgs → w ∉ pp.split_words (pp.clean_msg m).
Proof.
  unfold containing. induction msgs as [|m msgs IH].
  - split; [|done]. intros _ m Hm. by apply elem_of_nil in Hm.
  - rewrite filter_cons. case_decide as Hw; simpl.
    + split; [done|]. intros Hall. destruct (Hall m); [by left|done].
    + rewrite IH. split.
      * intros Hall m' [->|Hm']%elem_of_cons; [done|by apply Hall].
      * intros Hall m' Hm'. apply Hall. by right.
Qed.

Lemma containing_pos w msgs :
  containing w msgs ≠ 0%nat →
  ∃ m, m ∈ msgs ∧ w ∈ pp.split_words (pp.clean_msg m).
Proof.
  unfold containing.
  destruct (filter _ msgs) as [|m ms] eqn:E; [done|]. intros _.
  assert (m ∈ filter (λ m, w ∈ pp.split_words (pp.clean_msg m)) msgs) as Hm
    by (rewrite E; by left).
  apply list_elem_of_filter in Hm as [Hw Hm]. by exists m.
Qed.

(** X11: the count that [count_words] holds for a word is the number of
    messages the word is in, between 1 and the number of messages; a word
    is missing exactly when it is in no message. *)
Theorem count_words_counts_messages msgs w :
  (pp.count_words msgs !! w = None
   ↔ ∀ m, m ∈ msgs → w ∉ pp.split_words (pp.clean_msg m))
  ∧ (∀ n, pp.count_words msgs !! w = Some n →
          n = Z.of_nat (containing w msgs) ∧ (1 ≤ n ≤ Z.of_nat (length msgs))%Z).
Proof.
  rewrite count_words_lookup, <- containing_zero.
  pose proof (containing_le w msgs).
  case_decide as Hz.
  - split; [done|]. by intros n.
  - split; [done|]. intros n [= <-]. split; [done|lia].
Qed.

(** X12: in the dict of [count_words_in_ham_and_spam] each count of a word
    is between 0 and the count of its class given by [count_ham_and_spam],
    and the two counts of a word are not both 0. *)
Theorem word_counts_bounded_by_class_counts l w a b :
  pp.count_words_in_ham_and_spam l !! w = Some (a, b) →
  (0 ≤ a ≤ (pp.count_ham_and_spam l).1)%Z
  ∧ (0 ≤ b ≤ (pp.count_ham_and_spam l).2)%Z
  ∧ (0 < a + b)%Z.
Proof.
  rewrite count_words_in_ham_and_spam_lookup, count_ham_and_spam_lengths. simpl.
  pose proof (containing_le w (messages_of "ham" l)).
  pose proof (containing_le w (messages_of "spam" l)).
  case_decide as Hz; [done|]. intros [= <- <-]. lia.
Qed.

Lemma word_counts_bounded_by_class_counts_witness :
  (0 ≤ 1 ≤ (pp.count_ham_and_spam (zip example_classes example_messages)).1)%Z
  ∧ (0 ≤ 0 ≤ (pp.count_ham_and_spam (zip example_classes example_messages)).2)%Z
  ∧ (0 < 1 + 0)%Z.
Proof.
  apply (word_counts_bounded_by_class_counts
           (zip example_classes example_messages) "hello" 1 0).
  by vm_compute.
Defined.

Lemma messages_of_Permutation label l1 l2 :
  l1 ≡ₚ l2 → messages_of label l1 ≡ₚ messages_of label l2.
Proof. intros Hp. unfold messages_of. by rewrite Hp. Qed.

Lemma containing_Permutation w msgs1 msgs2 :
  msgs1 ≡ₚ msgs2 → containing w msgs1 = containing w msgs2.
Proof. intros Hp. unfold containing. by rewrite Hp. Qed.

Lemma counts_Permutation l1 l2 :
  l1 ≡ₚ l2 →
  pp.count_ham_and_spam l1 = pp.count_ham_and_spam l2
  ∧ pp.count_words_in_ham_and_spam l1 = pp.count_words_in_ham_and_spam l2.
Proof.
  intros Hp. split.
  - rewrite !count_ham_and_spam_lengths.
    by rewrite (messages_of_Permutation "ham" _ _ Hp),
               (messages_of_Permutation "spam" _ _ Hp).
  - apply map_eq. intros w. rewrite !count_words_in_ham_and_spam_lookup.
    by rewrite (containing_Permutation w _ _ (messages_of_Permutation "ham" _ _ Hp)),
               (containing_Permutation w _ _ (messages_of_Permutation "spam" _ _ Hp)).
Qed.

(** X13: the class counts and the word counts do not depend on the order
    of the labelled messages. *)
Theorem counts_ignore_order l1 l2 :
  l1 ≡ₚ l2 →
  pp.count_ham_and_spam l1 = pp.count_ham_and_spam l2
  ∧ pp.count_words_in_ham_and_spam l1 = pp.count_words_in_ham_and_spam l2.
Proof. apply counts_Permutation. Qed.

Lemma counts_ignore_order_witness :
  pp.count_ham_and_spam [("ham", "hello world"); ("spam", "win now")]
    = pp.count_ham_and_spam [("spam", "win now"); ("ham", "hello world")]
  ∧ pp.count_words_in_ham_and_spam [("ham", "hello world"); ("spam", "win now")]
    = pp.count_words_in_ham_and_spam [("spam", "win now"); ("ham", "hello world")].
Proof.
  apply (counts_ignore_order [("ham", "hello world"); ("spam", "win now")]
           [("spam", "win now"); ("ham", "hello world")]).
  apply perm_swap.
Defined.

(** X14: the keys of the word counts are exactly the words of the messages
    labelled "ham" or "spam". *)
Theorem vocabulary_is_words_of_labelled_messages l w :
  w ∈ dom (pp.count_words_in_ham_and_spam l) ↔
    ∃ a m, (a, m) ∈ l ∧ (a = "ham" ∨ a = "spam")
           ∧ w ∈ pp.split_words (pp.clean_msg m).
Proof.
  rewrite elem_of_dom, count_words_in_ham_and_spam_lookup.
  pose proof (containing_zero w (messages_of "ham" l)) as Hh.
  pose proof (containing_zero w (messages_of "spam" l)) as Hs.
  case_decide as Hz.
  - split; [by intros [? [=]]|]. intros (a & m & Hin & [->| ->] & Hw); exfalso.
    + apply (proj1 Hh (proj1 Hz) m); [by apply elem_of_messages_of|done].
    + apply (proj1 Hs (proj2 Hz) m); [by apply elem_of_messages_of|done].
  - split; [intros _|by eexists].
    destruct (decide (containing w (messages_of "ham" l) = 0%nat)) as [Ezero|Epos].
    + destruct (containing_pos w (messages_of "spam" l)) as (m & Hm & Hw); [tauto|].
      apply elem_of_messages_of in Hm. exists "spam", m. split; [done|]. by split; [right|].
    + destruct (containing_pos w (messages_of "ham" l) Epos) as (m & Hm & Hw).
      apply elem_of_messages_of in Hm. exists "ham", m. split; [done|]. by split; [left|].
Qed.
End more_counting.


(** ** Fitting *)

Section more_fit.
Local Open Scope Q_scope.

Lemma estimate_words_nil alpha d_ham d_spam acc :
  estimate_words alpha d_ham d_spam [] acc = Ok acc.
Proof. done. Qed.

(** The three outcomes of the estimator. *)
Lemma estimate_probabilities_outcome word_counts nh ns alpha :
  let n_tot := inject_Z nh + inject_Z ns + 2 * alpha in
  (n_tot == 0 →
     estimate_probabilities word_counts (nh, ns) alpha = Raise ZeroDivisionError)
  ∧ (¬ n_tot == 0 → word_counts ≠ ∅ →
     smoothed alpha nh == 0 ∨ smoothed alpha ns == 0 →
     estimate_probabilities word_counts (nh, ns) alpha = Raise ZeroDivisionError)
  ∧ (¬ n_tot == 0 →
     word_counts = ∅ ∨ (¬ smoothed alpha nh == 0 ∧ ¬ smoothed alpha ns == 0) →
     ∃ r, estimate_probabilities word_counts (nh, ns) alpha = Ok r).
Proof.
  intros n_tot. unfold estimate_probabilities.
  fold (smoothed alpha nh) (smoothed alpha ns). fold n_tot.
  split; [|split].
  - intros Hz. rewrite (truediv_zero (smoothed alpha nh) n_tot Hz). reflexivity.
  - intros Hnz Hne Hzero. rewrite !truediv_ok by done. simpl.
    rewrite estimate_words_raise; [done| |done]. by rewrite map_to_list_empty_iff.
  - intros Hnz [->|[Hh Hs]]; rewrite !truediv_ok by done; simpl.
    + rewrite map_to_list_empty. simpl. by eexists.
    + rewrite estimate_words_ok by done. simpl. by eexists.
Qed.

Lemma estimate_probabilities_raise_cases word_counts nh ns alpha :
  (estimate_probabilities word_counts (nh, ns) alpha = Raise ZeroDivisionError
   ↔ (inject_Z nh + inject_Z ns + 2 * alpha == 0
      ∨ (word_counts ≠ ∅ ∧ (smoothed alpha nh == 0 ∨ smoothed alpha ns == 0))))
  ∧ ((∃ r, estimate_probabilities word_counts (nh, ns) alpha = Ok r)
     ↔ ¬ (inject_Z nh + inject_Z ns + 2 * alpha == 0
          ∨ (word_counts ≠ ∅ ∧ (smoothed alpha nh == 0 ∨ smoothed alpha ns == 0)))).
Proof.
  destruct (estimate_probabilities_outcome word_counts nh ns alpha)
    as (Hzero & Hword & Hok).
  destruct (Qeq_dec (inject_Z nh + inject_Z ns + 2 * alpha) 0) as [Ht|Ht].
  { rewrite (Hzero Ht). split; [tauto|]. split; [by intros [r [=]]|tauto]. }
  destruct (decide (word_counts = ∅)) as [He|He].
  { destruct (Hok Ht) as [r Hr]; [by left|]. rewrite Hr.
    split; [|split; [tauto|by eexists]].
    split; [done|]. intros [?|[? _]]; done. }
  destruct (Qeq_dec (smoothed alpha nh) 0) as [Hh|Hh].
  { rewrite (Hword Ht He) by by left. split; [tauto|].
    split; [by intros [r [=]]|tauto]. }
  destruct (Qeq_dec (smoothed alpha ns) 0) as [Hs|Hs].
  { rewrite (Hword Ht He) by by right. split; [tauto|].
    split; [by intros [r [=]]|tauto]. }
  destruct (Hok Ht) as [r Hr]; [by right|]. rewrite Hr.
  split; [|split; [tauto|by eexists]].
  split; [done|]. intros [?|[_ [?|?]]]; done.
Qed.

(** X15: [estimate_probabilities] raises, and then [ZeroDivisionError],
    exactly when the total [n_ham + n_spam + 2 alpha] is zero, or when
    there is a word to estimate and one of the two class divisors is
    zero; in every other case it returns. *)
Theorem estimate_probabilities_raises_iff word_counts nh ns alpha :
  (estimate_probabilities word_counts (nh, ns) alpha = Raise ZeroDivisionError
   ↔ (inject_Z nh + inject_Z ns + 2 * alpha == 0
      ∨ (word_counts ≠ ∅ ∧ (smoothed alpha nh == 0 ∨ smoothed alpha ns == 0))))
  ∧ ((∃ r, estimate_probabilities word_counts (nh, ns) alpha = Ok r)
     ↔ ¬ (inject_Z nh + inject_Z ns + 2 * alpha == 0
          ∨ (word_counts ≠ ∅ ∧ (smoothed alpha nh == 0 ∨ smoothed alpha ns == 0)))).
Proof. apply estimate_probabilities_raise_cases. Qed.

(** X16: [fit] raises [NameError] on every corpus, at the call of
    [estimate_probabilities] by the bare name.  The detector it leaves
    holds the counts of the corpus ([n_train_messages] is the length of the
    shorter of the two sequences) and keeps [alpha] and the [_prob_info]
    it had. *)
Theorem fit_raises_NameError self messages classes :
  (fit self messages classes).2 = Raise NameError
  ∧ alpha (fit self messages classes).1 = alpha self
  ∧ _prob_info (fit self messages classes).1 = _prob_info self
  ∧ n_train_messages (fit self messages classes).1
    = Some (Z.of_nat (Nat.min (length classes) (length messages)))
  ∧ _word_counts (fit self messages classes).1
    = Some (pp.count_words_in_ham_and_spam (zip classes messages))
  ∧ n_ham (fit self messages classes).1
    = Some (pp.count_ham_and_spam (zip classes messages)).1
  ∧ n_spam (fit self messages classes).1
    = Some (pp.count_ham_and_spam (zip classes messages)).2.
Proof.
  rewrite fit_state. simpl. by rewrite length_zip.
Qed.
End more_fit.


(** ** Estimated models *)

Section more_models.
Local Open Scope Q_scope.

Lemma Qdiv_le_one (a b : Q) : 0 < b → a <= b → a / b <= 1.
Proof. intros Hb Hab. apply Qle_shift_div_r; [done|]. lra. Qed.

Lemma estimate_probabilities_Ok_inv word_counts nh ns alpha p_word_class p_class :
  estimate_probabilities word_counts (nh, ns) alpha = Ok (p_word_class, p_class) →
  ¬ inject_Z nh + inject_Z ns + 2 * alpha == 0
  ∧ p_class = (smoothed alpha nh / (inject_Z nh + inject_Z ns + 2 * alpha),
               smoothed alpha ns / (inject_Z nh + inject_Z ns + 2 * alpha))
  ∧ ((word_counts = ∅ ∧ p_word_class = ∅)
     ∨ (¬ smoothed alpha nh == 0 ∧ ¬ smoothed alpha ns == 0
        ∧ p_word_class
          = word_given_class alpha (smoothed alpha nh) (smoothed alpha ns)
              <$> word_counts)).
Proof.
  intros Hest. destruct p_class as [p_ham p_spam].
  destruct (estimate_probabilities_inv _ _ _ _ _ _ _ Hest) as (Ht & -> & ->).
  split; [done|]. split; [done|].
  destruct (estimate_probabilities_raise_cases word_counts nh ns alpha) as [_ Hok].
  assert (¬ (inject_Z nh + inject_Z ns + 2 * alpha == 0
             ∨ word_counts ≠ ∅
               ∧ (smoothed alpha nh == 0 ∨ smoothed alpha ns == 0))) as Hcase
    by (apply Hok; by eexists).
  destruct (decide (word_counts = ∅)) as [->|Hne].
  - left. split; [done|]. revert Hest. unfold estimate_probabilities.
    fold (smoothed alpha nh) (smoothed alpha ns).
    rewrite !truediv_ok by done. simpl. rewrite map_to_list_empty. simpl.
    by intros [= <-].
  - right.
    assert (¬ smoothed alpha nh == 0) as Hh by (intros ?; apply Hcase; right; tauto).
    assert (¬ smoothed alpha ns == 0) as Hs by (intros ?; apply Hcase; right; tauto).
    split; [done|]. split; [done|].
    rewrite estimate_probabilities_ok in Hest by done. by injection Hest as <-.
Qed.

(** X19: when [estimate_probabilities] returns on the counts of a corpus
    with [alpha >= 0], both priors and every word probability it returns
    lie between 0 and 1. *)
Theorem estimated_probabilities_in_unit_interval
    (l : list (string * string)) alpha p_word_class p_ham p_spam :
  0 <= alpha →
  estimate_probabilities (pp.count_words_in_ham_and_spam l)
    (pp.count_ham_and_spam l) alpha = Ok (p_word_class, (p_ham, p_spam)) →
  (0 <= p_ham ∧ p_ham <= 1) ∧ (0 <= p_spam ∧ p_spam <= 1)
  ∧ ∀ w p, p_word_class !! w = Some p →
           (0 <= p.1 ∧ p.1 <= 1) ∧ (0 <= p.2 ∧ p.2 <= 1).
Proof.
  intros Ha Hest. rewrite count_ham_and_spam_lengths in Hest.
  set (nh := Z.of_nat (length (messages_of "ham" l))) in *.
  set (ns := Z.of_nat (length (messages_of "spam" l))) in *.
  pose proof (inject_Z_nonneg nh ltac:(lia)) as Hnh.
  pose proof (inject_Z_nonneg ns ltac:(lia)) as Hns.
  apply estimate_probabilities_Ok_inv in Hest as (Ht & [= -> ->] & Hwords).
  pose proof (smoothed_sum alpha nh ns Ha) as Hsum.
  assert (0 <= smoothed alpha nh ∧ 0 <= smoothed alpha ns) as [Hsh Hss].
  { unfold smoothed. destruct (Qgt_bool alpha 0); split; lra. }
  assert (∀ k : Z, (0 ≤ k)%Z → inject_Z k + alpha <= smoothed alpha k
                                ∨ (alpha == 0 ∧ smoothed alpha k = inject_Z k))
    as Hsm.
  { intros k Hk. unfold smoothed. destruct (Qgt_bool alpha 0) eqn:E.
    - left. lra.
    - right. apply Qgt_bool_false in E. split; [lra|done]. }
  set (t := inject_Z nh + inject_Z ns + 2 * alpha) in *.
  assert (0 < t) as Htpos by lra.
  split; [split; [apply Qle_shift_div_l|apply Qdiv_le_one]; lra|].
  split; [split; [apply Qle_shift_div_l|apply Qdiv_le_one]; lra|].
  intros w p Hp. destruct Hwords as [[_ ->]|(Hh & Hs & ->)].
  { by rewrite lookup_empty in Hp. }
  apply lookup_fmap_Some in Hp as ([a b] & <- & Hc).
  rewrite count_words_in_ham_and_spam_lookup in Hc.
  pose proof (containing_le w (messages_of "ham" l)) as Hle_h.
  pose proof (containing_le w (messages_of "spam" l)) as Hle_s.
  case_decide as Hz; [done|]. injection Hc as <- <-. simpl.
  set (a := Z.of_nat (containing w (messages_of "ham" l))) in *.
  set (b := Z.of_nat (containing w (messages_of "spam" l))) in *.
  pose proof (inject_Z_nonneg a ltac:(lia)) as Hqa.
  pose proof (inject_Z_nonneg b ltac:(lia)) as Hqb.
  assert (inject_Z a <= inject_Z nh) as Hanh by (rewrite <- Zle_Qle; lia).
  assert (inject_Z b <= inject_Z ns) as Hbns by (rewrite <- Zle_Qle; lia).
  assert (inject_Z a + alpha <= smoothed alpha nh) as Hna.
  { destruct (Hsm nh ltac:(lia)) as [?|[? Heq]]; [lra|rewrite Heq; lra]. }
  assert (inject_Z b + alpha <= smoothed alpha ns) as Hnb.
  { destruct (Hsm ns ltac:(lia)) as [?|[? Heq]]; [lra|rewrite Heq; lra]. }
  split; (split; [apply Qle_shift_div_l|apply Qdiv_le_one]; lra).
Qed.

Lemma estimated_probabilities_in_unit_interval_witness :
  (0 <= 3 # 5 ∧ 3 # 5 <= 1) ∧ (0 <= 2 # 5 ∧ 2 # 5 <= 1)
  ∧ ∀ w p, example_word_probs !! w = Some p →
           (0 <= p.1 ∧ p.1 <= 1) ∧ (0 <= p.2 ∧ p.2 <= 1).
Proof.
  apply (estimated_probabilities_in_unit_interval
           (zip example_classes example_messages) 1 example_word_probs
           (3 # 5) (2 # 5)); by vm_compute.
Defined.
End more_models.


(** ** Prediction *)

Section more_predict.
Local Open Scope Q_scope.
Implicit Types (self : SpamDetector) (p_word_class : gmap string (Q * Q)).

(** X22: whatever the detector holds, [predict_proba] and [predict] raise
    [NameError] on a single message and on a sequence that is not empty,
    and return the empty list on the empty sequence.  Before any [fit],
    [predict_word_proba] returns the empty dict on a message without words
    and raises [TypeError] on any other. *)
Theorem prediction_raises self alpha message msgs :
  predict_proba self (Single message) = Raise NameError
  ∧ predict_proba self (Sequence (message :: msgs)) = Raise NameError
  ∧ predict self (Sequence (message :: msgs)) = Raise NameError
  ∧ predict_proba self (Sequence []) = Ok (Many [])
  ∧ predict self (Sequence []) = Ok (Many [])
  ∧ predict_word_proba (init alpha) message
    = if decide (pp.split_words (pp.clean_msg message) = ∅) then Ok ∅
      else Raise TypeError.
Proof.
  split; [done|]. split; [done|]. split; [done|]. split; [done|]. split; [done|].
  unfold predict_word_proba.
  destruct (elements (pp.split_words (pp.clean_msg message))) as [|w ws] eqn:E.
  - apply elements_empty_inv in E. apply leibniz_equiv in E. by rewrite decide_True.
  - rewrite decide_False; [done|]. intros Hempty. by rewrite Hempty, elements_empty in E.
Qed.
End more_predict.


(** ** The products of the classifier *)

Section more_products.
Local Open Scope Q_scope.
Implicit Types (p_word_class : gmap string (Q * Q)) (acc p_class : Q * Q).

Lemma products_zero_absorbs p_word_class words acc :
  (acc.1 == 0 → (foldl (product_step p_word_class) acc words).1 == 0)
  ∧ (acc.2 == 0 → (foldl (product_step p_word_class) acc words).2 == 0).
Proof.
  revert acc. induction words as [|w words IH]; intros [a b]; simpl in *; [done|].
  destruct (default (1, 1) (p_word_class !! w)) as [x y] eqn:E.
  destruct (IH (a * x, b * y)) as [IH1 IH2]. simpl in *.
  split; intros Hz; [apply IH1|apply IH2]; rewrite Hz; ring.
Qed.

Lemma products_zero_word p_word_class words acc w p :
  w ∈ words → p_word_class !! w = Some p →
  (p.1 == 0 → (foldl (product_step p_word_class) acc words).1 == 0)
  ∧ (p.2 == 0 → (foldl (product_step p_word_class) acc words).2 == 0).
Proof.
  intros Hw Hp. revert acc. induction words as [|v words IH]; intros [a b].
  - by apply elem_of_nil in Hw.
  - apply elem_of_cons in Hw as [<-|Hw]; [|by apply IH].
    simpl. rewrite Hp. destruct p as [x y]. simpl.
    destruct (products_zero_absorbs p_word_class words (a * x, b * y)) as [H1 H2].
    simpl in *. split; intros Hz; [apply H1|apply H2]; rewrite Hz; ring.
Qed.

(** X24: when a message holds a word whose ham probability is 0 and a
    word whose spam probability is 0, both joint products are 0 and
    [classify_message] raises [ZeroDivisionError]. *)
Theorem classify_message_raises_on_opposite_zeros
    p_word_class p_class message w1 w2 p1 p2 :
  w1 ∈ pp.split_words (pp.clean_msg message) →
  w2 ∈ pp.split_words (pp.clean_msg message) →
  p_word_class !! w1 = Some p1 → p1.1 == 0 →
  p_word_class !! w2 = Some p2 → p2.2 == 0 →
  classify_message message (Some (p_word_class, p_class)) = Raise ZeroDivisionError.
Proof.
  intros Hw1%elem_of_elements Hw2%elem_of_elements Hp1 Hz1 Hp2 Hz2.
  apply classify_message_raise. unfold joint_products, message_products. simpl.
  destruct (products_zero_word p_word_class _ (1, 1) w1 p1 Hw1 Hp1) as [H1 _].
  destruct (products_zero_word p_word_class _ (1, 1) w2 p2 Hw2 Hp2) as [_ H2].
  rewrite (H1 Hz1), (H2 Hz2). ring.
Qed.

Lemma classify_message_raises_on_opposite_zeros_witness :
  classify_message "win hello"
    (Some ({["win" := (0, 1)]} ∪ {["hello" := (1, 0)]}, (1 # 2, 1 # 2)))
  = Raise ZeroDivisionError.
Proof.
  apply (classify_message_raises_on_opposite_zeros
           ({["win" := (0, 1)]} ∪ {["hello" := (1, 0)]}) (1 # 2, 1 # 2)
           "win hello" "win" "hello" (0, 1) (1, 0)); by vm_compute.
Defined.

End more_products.

(** ** The error rate *)

Section more_utils.
Local Open Scope Q_scope.
Context {A : Type} `{EqDecision A}.
Implicit Types (ytrue ypred : list A).

Lemma foldl_Qplus_shift (acc : Q) (l : list Q) :
  foldl Qplus acc l == acc + foldl Qplus 0 l.
Proof.
  revert acc. induction l as [|x l IH]; intros acc; simpl; [ring|].
  rewrite (IH (acc + x)), (IH (0 + x)). ring.
Qed.

Lemma sum_of_indicators ytrue ypred :
  foldl Qplus 0 (zip_with (λ t p, if decide (t ≠ p) then 1 else 0) ytrue ypred)
  == inject_Z (Z.of_nat (mismatches ytrue ypred)).
Proof.
  unfold mismatches. revert ypred.
  induction ytrue as [|t ytrue IH]; intros [|p ypred]; try done.
  simpl. rewrite foldl_Qplus_shift, IH, filter_cons. simpl.
  case_decide; simpl length; rewrite ?Nat2Z.inj_succ, <- ?Z.add_1_l, ?inject_Z_plus;
    ring.
Qed.

Lemma mismatches_le ytrue ypred : (mismatches ytrue ypred ≤ length ytrue)%nat.
Proof.
  unfold mismatches. etrans; [apply length_filter|]. rewrite length_zip. lia.
Qed.

Lemma mismatches_zero ytrue ypred :
  length ytrue = length ypred →
  mismatches ytrue ypred = 0%nat ↔ ytrue = ypred.
Proof.
  unfold mismatches. revert ypred.
  induction ytrue as [|t ytrue IH]; intros [|p ypred] Hlen; try done.
  injection Hlen as Hlen. simpl. rewrite filter_cons. simpl.
  case_decide as Hne; simpl.
  - split; [done|]. by intros [= -> _].
  - subst p. rewrite (IH _ Hlen).
    split; [by intros ->|by intros [= ->]].
Qed.

Lemma misclassification_rate_cases ytrue ypred :
  utils.misclassification_rate ytrue ypred =
    if decide (length ytrue = length ypred)
    then if decide (ytrue = [])
         then Raise ZeroDivisionError
         else Ok (foldl Qplus 0
                    (zip_with (λ t p, if decide (t ≠ p) then 1 else 0) ytrue ypred)
                  / inject_Z (Z.of_nat (length ytrue)))
    else Raise ValueError.
Proof.
  unfold utils.misclassification_rate.
  destruct (Nat.eqb_spec (length ytrue) (length ypred)) as [Hlen|Hlen]; simpl.
  - rewrite decide_True by done. destruct (decide (ytrue = [])) as [->|Hne].
    + reflexivity.
    + apply truediv_ok. change 0 with (inject_Z 0). rewrite inject_Z_injective.
      destruct ytrue; [done|]. simpl. lia.
  - by rewrite decide_False.
Qed.

(** X27: [misclassification_rate] raises [ValueError] exactly when the two
    sequences differ in length and [ZeroDivisionError] exactly when both
    are empty; it returns in every other case, and gives the same result
    with its two arguments exchanged. *)
Theorem misclassification_rate_outcome ytrue ypred :
  (utils.misclassification_rate ytrue ypred = Raise ValueError
   ↔ length ytrue ≠ length ypred)
  ∧ (utils.misclassification_rate ytrue ypred = Raise ZeroDivisionError
     ↔ ytrue = [] ∧ ypred = [])
  ∧ ((∃ r, utils.misclassification_rate ytrue ypred = Ok r)
     ↔ length ytrue = length ypred ∧ ytrue ≠ [])
  ∧ utils.misclassification_rate ytrue ypred
    = utils.misclassification_rate ypred ytrue.
Proof.
  split; [|split; [|split]].
  - rewrite misclassification_rate_cases. repeat case_decide; by split.
  - rewrite misclassification_rate_cases. repeat case_decide; subst.
    + split; [intros _|done]. split; [done|]. by destruct ypred.
    + split; [done|]. by intros [? _].
    + split; [done|]. intros [-> ->]. done.
  - rewrite misclassification_rate_cases. repeat case_decide.
    + split; [by intros [r [=]]|by intros [_ ?]].
    + split; [done|]. by eexists.
    + split; [by intros [r [=]]|by intros [? _]].
  - rewrite !misclassification_rate_cases.
    destruct (decide (length ytrue = length ypred)) as [Hlen|Hlen].
    + rewrite (decide_True (P := length ypred = length ytrue)) by done.
      destruct ytrue as [|t ytrue], ypred as [|p ypred]; try done.
      rewrite !decide_False by done. rewrite Hlen. do 3 f_equal.
      clear Hlen. generalize (t :: ytrue) (p :: ypred). clear.
      intros l1. induction l1 as [|x l1 IH]; intros [|y l2]; try done.
      simpl. rewrite IH. f_equal. by repeat case_decide.
    + by rewrite (decide_False (P := length ypred = length ytrue)).
Qed.

(** X28: a returned rate is the number of positions where the two
    sequences differ over their length; it lies between 0 and 1 and is 0
    exactly when the two sequences are equal. *)
Theorem misclassification_rate_value ytrue ypred r :
  utils.misclassification_rate ytrue ypred = Ok r →
  r == inject_Z (Z.of_nat (mismatches ytrue ypred)) / inject_Z (Z.of_nat (length ytrue))
  ∧ (0 <= r ∧ r <= 1)
  ∧ (r == 0 ↔ ytrue = ypred).
Proof.
  rewrite misclassification_rate_cases.
  case_decide as Hlen; [|done]. case_decide as Hne; [done|]. intros [= <-].
  pose proof (mismatches_le ytrue ypred) as Hle.
  pose proof (mismatches_zero ytrue ypred Hlen) as Hzero.
  rewrite sum_of_indicators.
  set (k := mismatches ytrue ypred) in *.
  assert (0 < length ytrue)%nat as Hpos by (destruct ytrue; [done|simpl; lia]).
  set (n := length ytrue) in *.
  pose proof (inject_Z_pos (Z.of_nat n) ltac:(lia)) as Hn.
  pose proof (inject_Z_nonneg (Z.of_nat k) ltac:(lia)) as Hk.
  assert (inject_Z (Z.of_nat k) <= inject_Z (Z.of_nat n)) as Hkn
    by (rewrite <- Zle_Qle; lia).
  split; [done|]. split.
  - split; [apply Qle_shift_div_l; [done|lra]|apply Qle_shift_div_r; [done|lra]].
  - rewrite <- Hzero. split.
    + intros Hr.
      assert (inject_Z (Z.of_nat k) == 0) as Hk0.
      { rewrite <- (Qmult_div_r (inject_Z (Z.of_nat k)) (inject_Z (Z.of_nat n))) by lra.
        rewrite Hr. ring. }
      unfold Qeq in Hk0. simpl in Hk0. lia.
    + intros ->. simpl. change (inject_Z 0) with 0. field. lra.
Qed.
End more_utils.

Section more_utils_examples.
Local Open Scope Q_scope.

Lemma misclassification_rate_value_witness :
  2 # 3 == inject_Z (Z.of_nat (mismatches ["ham"; "spam"; "ham"] ["ham"; "ham"; "spam"]))
           / inject_Z (Z.of_nat (length ["ham"; "spam"; "ham"]))
  ∧ (0 <= 2 # 3 ∧ 2 # 3 <= 1)
  ∧ (2 # 3 == 0 ↔ ["ham"; "spam"; "ham"] = ["ham"; "ham"; "spam"]).
Proof.
  apply (misclassification_rate_value ["ham"; "spam"; "ham"] ["ham"; "ham"; "spam"]
           (2 # 3)).
  by vm_compute.
Defined.
End more_utils_examples.

(** ** Random splitting *)

Section more_random.
Local Open Scope Q_scope.
Context {G : Type} (random : G → Q * G) (seed_rng : Z → G).
Context {A : Type}.
Implicit Types (seq : list A) (g : G).

Lemma random_split_loop_parts p seq (acc1 acc2 list1 list2 : list A) g g' :
  pp.random_split_loop random p seq acc1 acc2 g = (list1, list2, g') →
  ∃ part1 part2,
    list1 = acc1 ++ part1 ∧ list2 = acc2 ++ part2
    ∧ part1 ++ part2 ≡ₚ seq ∧ part1 `sublist_of` seq ∧ part2 `sublist_of` seq.
Proof.
  revert acc1 acc2 g. induction seq as [|elt rest IH]; intros acc1 acc2 g; simpl.
  - intros [= <- <- <-]. exists [], []. by rewrite !app_nil_r.
  - destruct (random g) as [x g1]. destruct (Qgt_bool p x).
    + intros (part1 & part2 & -> & -> & Hp & Hs1 & Hs2)%IH.
      exists (elt :: part1), part2. rewrite <- app_assoc. simpl.
      split; [done|]. split; [done|]. split; [by rewrite Hp|].
      split; [by apply sublist_skip|by apply sublist_cons].
    + intros (part1 & part2 & -> & -> & Hp & Hs1 & Hs2)%IH.
      exists part1, (elt :: part2). rewrite <- app_assoc. simpl.
      split; [done|]. split; [done|].
      split; [by rewrite <- Permutation_middle, Hp|].
      split; [by apply sublist_cons|by apply sublist_skip].
Qed.

(** X29: [random_split] raises [ValueError] exactly when [p] is below 0
    or above 1; otherwise it returns two lists that together hold the
    elements of the sequence, each once, and each list keeps the order of
    the sequence. *)
Theorem random_split_partitions seq p seed g :
  (pp.random_split random seed_rng seq p seed g = Raise ValueError
   ↔ (p < 0 ∨ 1 < p))
  ∧ (∀ (list1 list2 : list A) g',
       pp.random_split random seed_rng seq p seed g = Ok (list1, list2, g') →
       (0 <= p ∧ p <= 1)
       ∧ list1 ++ list2 ≡ₚ seq
       ∧ list1 `sublist_of` seq ∧ list2 `sublist_of` seq).
Proof.
  unfold pp.random_split.
  destruct (Qgt_bool 0 p) eqn:E0; simpl.
  - apply Qgt_bool_true in E0. split; [split; [by left|done]|done].
  - apply Qgt_bool_false in E0. destruct (Qgt_bool p 1) eqn:E1; simpl.
    + apply Qgt_bool_true in E1. split; [split; [by right|done]|done].
    + apply Qgt_bool_false in E1. split.
      * split; [done|]. intros [?|?]; lra.
      * intros list1 list2 g' [= Hloop].
        apply random_split_loop_parts in Hloop
          as (part1 & part2 & -> & -> & Hp & Hs1 & Hs2).
        by split.
Qed.

Lemma random_split_loop_extremes p seq (acc1 acc2 : list A) g :
  (∀ g0, 0 <= (random g0).1 ∧ (random g0).1 < 1) →
  (p == 0 → ∃ g', pp.random_split_loop random p seq acc1 acc2 g = (acc1, acc2 ++ seq, g'))
  ∧ (p == 1 → ∃ g', pp.random_split_loop random p seq acc1 acc2 g = (acc1 ++ seq, acc2, g')).
Proof.
  intros Hrange. revert acc1 acc2 g.
  induction seq as [|elt rest IH]; intros acc1 acc2 g; simpl.
  - rewrite !app_nil_r. split; intros _; by eexists.
  - pose proof (Hrange g) as Hg. destruct (random g) as [x g1]. simpl in Hg.
    split; intros Hp.
    + assert (Qgt_bool p x = false) as -> by (apply Qgt_bool_false; lra).
      destruct (IH acc1 (acc2 ++ [elt]) g1) as [[g' Hg'] _]; [done|].
      exists g'. by rewrite Hg', <- app_assoc.
    + assert (Qgt_bool p x = true) as -> by (apply Qgt_bool_true; lra).
      destruct (IH (acc1 ++ [elt]) acc2 g1) as [_ [g' Hg']]; [done|].
      exists g'. by rewrite Hg', <- app_assoc.
Qed.

(** X30: when every draw of the generator lies in [0, 1), [p = 0] sends
    the whole sequence to the second list and [p = 1] sends it to the
    first. *)
Theorem random_split_extremes seq p seed g :
  (∀ g0, 0 <= (random g0).1 ∧ (random g0).1 < 1) →
  (p == 0 → ∃ g', pp.random_split random seed_rng seq p seed g = Ok ([], seq, g'))
  ∧ (p == 1 → ∃ g', pp.random_split random seed_rng seq p seed g = Ok (seq, [], g')).
Proof.
  intros Hrange. unfold pp.random_split. split; intros Hp.
  - assert (Qgt_bool 0 p = false) as -> by (apply Qgt_bool_false; lra).
    assert (Qgt_bool p 1 = false) as -> by (apply Qgt_bool_false; lra). simpl.
    destruct (random_split_loop_extremes p seq [] []
                (match seed with Some s => seed_rng s | None => g end) Hrange)
      as [[g' Hg'] _]; [done|].
    exists g'. by rewrite Hg'.
  - assert (Qgt_bool 0 p = false) as -> by (apply Qgt_bool_false; lra).
    assert (Qgt_bool p 1 = false) as -> by (apply Qgt_bool_false; lra). simpl.
    destruct (random_split_loop_extremes p seq [] []
                (match seed with Some s => seed_rng s | None => g end) Hrange)
      as [_ [g' Hg']]; [done|].
    exists g'. by rewrite Hg'.
Qed.
End more_random.

Section more_random_examples.
Local Open Scope Q_scope.

Lemma cycle_random_range (g : nat) :
  0 <= (cycle_random g).1 ∧ (cycle_random g).1 < 1.
Proof.
  unfold cycle_random. simpl. pose proof (Nat.mod_upper_bound g 4 ltac:(lia)).
  unfold Qle, Qlt. simpl. lia.
Qed.

Lemma random_split_extremes_witness :
  (0 == 0 → ∃ g', pp.random_split cycle_random cycle_seed [1; 2; 3]%nat 0 (Some 5%Z) 0%nat
                  = Ok ([], [1; 2; 3]%nat, g'))
  ∧ (0 == 1 → ∃ g', pp.random_split cycle_random cycle_seed [1; 2; 3]%nat 0 (Some 5%Z) 0%nat
                    = Ok ([1; 2; 3]%nat, [], g')).
Proof.
  apply (random_split_extremes cycle_random cycle_seed [1; 2; 3]%nat 0 (Some 5%Z) 0%nat).
  apply cycle_random_range.
Defined.
End more_random_examples.
